(** * DaikinCloudProxy: the login proxy of lib/proxy.js

    A shallow embedding of the class [DaikinCloudProxy].  Every callback of
    the source is a function on the session state; the event loop runs one
    callback at a time, so a run of the program is a list of events folded
    over the state.  The two collaborators (the TLS interception engine and
    the OpenID client) are not part of the repository: the pure methods of
    the client are section variables, and what the engines and the network
    answer (bind outcomes, exchange outcomes, random values) is the input of
    the events. *)

From Stdlib Require Import Ascii String.
From stdpp Require Import base option list strings gmap.

Local Open Scope string_scope.

(** ** JavaScript values used by the class *)

(** An [Error] object: [name], [message], the optional [code] that Node puts
    on system errors, and the [stack] text. *)
Record jsError := mkError {
  err_name : string;
  err_message : string;
  err_code : option string;
  err_stack : string;
}.

(** [new Error(msg)].  The stack of an error raised by the class is never
    read by the class; only its header line is kept. *)
Definition Error (msg : string) : jsError :=
  {| err_name := "Error"; err_message := msg; err_code := None;
     err_stack := "Error: " +:+ msg |}.

(** [new TypeError(msg)], raised by the runtime on a property access on
    [null] or [undefined]. *)
Definition TypeError (msg : string) : jsError :=
  {| err_name := "TypeError"; err_message := msg; err_code := None;
     err_stack := "TypeError: " +:+ msg |}.

(** [String(err)], that is [Error.prototype.toString]. *)
Definition error_toString (e : jsError) : string :=
  if decide (err_name e = "") then err_message e
  else if decide (err_message e = "") then err_name e
  else err_name e +:+ ": " +:+ err_message e.

(** [String(x)] for a property that is a string or [undefined]. *)
Definition js_string (x : option string) : string :=
  match x with Some s => s | None => "undefined" end.

(** Truthiness of a property that is a string or [undefined]. *)
Definition truthy (x : option string) : bool :=
  match x with
  | Some s => if decide (s = "") then false else true
  | None => false
  end.

(** [hay.includes(needle)]. *)
Fixpoint includes (needle hay : string) : bool :=
  String.prefix needle hay ||
  match hay with
  | EmptyString => false
  | String _ rest => includes needle rest
  end.

(** [s.startsWith(p)]. *)
Definition startsWith (p s : string) : bool := String.prefix p s.

(** The token set handed back by the OpenID client: its JSON rendering and
    the JSON rendering of [claims()], which throws when the set carries no
    ID token. *)
Record TokenSet := {
  ts_json : string;
  ts_claims : option string;
}.

(** Values a promise of the class is fulfilled with. *)
Inductive value :=
| VUndefined
| VTrue
| VTokenSet (ts : TokenSet).

(** How a piece of code ends. *)
Inductive completion (A : Type) :=
| Return (a : A)
| Throw (e : jsError).
Arguments Return {A} a.
Arguments Throw {A} e.

(** ** Promises *)

Inductive settlement :=
| Pending
| Fulfilled (v : value)
| Rejected (e : jsError).

#[global] Instance jsError_eq_dec : EqDecision jsError.
Proof. solve_decision. Defined.
#[global] Instance TokenSet_eq_dec : EqDecision TokenSet.
Proof. solve_decision. Defined.
#[global] Instance value_eq_dec : EqDecision value.
Proof. solve_decision. Defined.
#[global] Instance settlement_eq_dec : EqDecision settlement.
Proof. solve_decision. Defined.

(** The resolving functions of a promise act once: a settled promise ignores
    later calls. *)
Definition settle (p : nat) (s : settlement) (ps : list settlement)
  : list settlement :=
  match ps !! p with
  | Some Pending => <[p := s]> ps
  | _ => ps
  end.

(** ** The pending-state store: a plain object used as a map

    [this.openIdStore] starts as [{}].  Its own properties map a state to an
    entry [{code_verifier}].  A read of a key that is not an own property
    falls through to the prototype: [Object.prototype], unless an assignment
    to ["__proto__"] replaced it by an entry. *)
Record JsObject := {
  own : gmap string string;
  proto : option string;
}.

Definition empty_object : JsObject := {| own := ∅; proto := None |}.

(** What a read of the store can give. *)
Inductive jsval :=
| Undefined
| Entry (code_verifier : string)
| Str (s : string)
| Builtin (name : string).

(** The properties every object inherits from [Object.prototype]. *)
Definition Object_prototype : list string :=
  [ "constructor"; "hasOwnProperty"; "isPrototypeOf"; "propertyIsEnumerable";
    "toLocaleString"; "toString"; "valueOf"; "__defineGetter__";
    "__defineSetter__"; "__lookupGetter__"; "__lookupSetter__" ].

Definition inherited (key : string) : jsval :=
  if decide (key ∈ Object_prototype) then Builtin key else Undefined.

(** [o[key]]. *)
Definition js_get (o : JsObject) (key : string) : jsval :=
  if decide (key = "__proto__") then
    match proto o with
    | Some v => Entry v
    | None => Builtin "Object.prototype"
    end
  else
    match own o !! key with
    | Some v => Entry v
    | None =>
        match proto o with
        | Some v => if decide (key = "code_verifier") then Str v
                    else inherited key
        | None => inherited key
        end
    end.

(** [o[key] = {code_verifier: v}]. *)
Definition js_set (o : JsObject) (key : string) (v : string) : JsObject :=
  if decide (key = "__proto__") then {| own := own o; proto := Some v |}
  else {| own := <[key := v]> (own o); proto := proto o |}.

(** Truthiness of a value read from the store. *)
Definition jsval_truthy (x : jsval) : bool :=
  match x with
  | Undefined => false
  | Entry _ => true
  | Str s => if decide (s = "") then false else true
  | Builtin _ => true
  end.

(** [x.code_verifier]. *)
Definition get_code_verifier (x : jsval) : option string :=
  match x with
  | Entry v => Some v
  | _ => None
  end.

(** ** Options and the session *)

(** The [options] argument of the constructor.  [logger] says whether a
    logger callback was given; a call of the logger appends its line to the
    session's [log]. *)
Record Options := {
  proxyOwnIp : string;
  proxyListenBind : string;
  proxyPort : N;
  proxyWebPort : N;
  proxyDataDir : string;
  logger : bool;
  logLevel : option string;
}.

(** [path.join(__dirname, '..')]: the library root. *)
Definition libraryRoot : string := "..".

Definition defaultOptions : Options :=
  {| proxyOwnIp := ""; proxyListenBind := "0.0.0.0"; proxyPort := 8888;
     proxyWebPort := 8889; proxyDataDir := libraryRoot; logger := false;
     logLevel := None |}.

(** A listener object of one of the two engines, with the state the engine
    keeps for it. *)
Inductive listener :=
| Binding
| Listening
| Closing.

#[global] Instance listener_eq_dec : EqDecision listener.
Proof. solve_decision. Defined.

(** The fields of [this], and the part of the world the class writes to: the
    promises made by [waitForTokenResponse] (a promise is its index), the
    lines given to the logger, and the files written. *)
Record Session := {
  options : Options;
  openIdStore : JsObject;
  proxyServer : option listener;
  staticServer : option listener;
  resultPromise : option nat;
  promises : list settlement;
  log : list string;
  files : list (string * string);
}.

Definition set_openIdStore (o : JsObject) (st : Session) : Session :=
  {| options := options st; openIdStore := o; proxyServer := proxyServer st;
     staticServer := staticServer st; resultPromise := resultPromise st;
     promises := promises st; log := log st; files := files st |}.

Definition set_proxyServer (l : option listener) (st : Session) : Session :=
  {| options := options st; openIdStore := openIdStore st; proxyServer := l;
     staticServer := staticServer st; resultPromise := resultPromise st;
     promises := promises st; log := log st; files := files st |}.

Definition set_staticServer (l : option listener) (st : Session) : Session :=
  {| options := options st; openIdStore := openIdStore st;
     proxyServer := proxyServer st; staticServer := l;
     resultPromise := resultPromise st; promises := promises st;
     log := log st; files := files st |}.

Definition set_resultPromise (p : option nat) (st : Session) : Session :=
  {| options := options st; openIdStore := openIdStore st;
     proxyServer := proxyServer st; staticServer := staticServer st;
     resultPromise := p; promises := promises st; log := log st;
     files := files st |}.

Definition set_promises (ps : list settlement) (st : Session) : Session :=
  {| options := options st; openIdStore := openIdStore st;
     proxyServer := proxyServer st; staticServer := staticServer st;
     resultPromise := resultPromise st; promises := ps; log := log st;
     files := files st |}.

Definition set_log (l : list string) (st : Session) : Session :=
  {| options := options st; openIdStore := openIdStore st;
     proxyServer := proxyServer st; staticServer := staticServer st;
     resultPromise := resultPromise st; promises := promises st; log := l;
     files := files st |}.

Definition set_files (fs : list (string * string)) (st : Session) : Session :=
  {| options := options st; openIdStore := openIdStore st;
     proxyServer := proxyServer st; staticServer := staticServer st;
     resultPromise := resultPromise st; promises := promises st;
     log := log st; files := fs |}.

(** [this.options.logger && this.options.logger(line)]. *)
Definition log_line (line : string) (st : Session) : Session :=
  if logger (options st) then set_log (log st ++ [line]) st else st.

(** Is the guard [this.options.logger && this.options.logLevel === 'debug']
    passed? *)
Definition debugging (st : Session) : bool :=
  logger (options st) && bool_decide (logLevel (options st) = Some "debug").

Definition log_debug (line : string) (st : Session) : Session :=
  if debugging st then set_log (log st ++ [line]) st else st.

(** [fs.writeFileSync(path.join(this.options.proxyDataDir, name), content)]. *)
Definition writeFileSync (name content : string) (st : Session) : Session :=
  set_files (files st ++ [(proxyDataDir (options st) +:+ "/" +:+ name, content)]) st.

(** [constructor(openIdClient, options)]. *)
Definition constructor (opts : option Options) : Session :=
  let o := default defaultOptions opts in
  let o := if truthy (logLevel o) then o
           else {| proxyOwnIp := proxyOwnIp o;
                   proxyListenBind := proxyListenBind o;
                   proxyPort := proxyPort o; proxyWebPort := proxyWebPort o;
                   proxyDataDir := proxyDataDir o; logger := logger o;
                   logLevel := Some "info" |} in
  {| options := o; openIdStore := empty_object; proxyServer := None;
     staticServer := None; resultPromise := None; promises := [];
     log := []; files := [] |}.

(** ** The rendezvous *)

(** [waitForTokenResponse()]: a new deferred promise is made and stored in
    [this.resultPromise]; the promise is returned. *)
Definition waitForTokenResponse (st : Session) : nat * Session :=
  let p := length (promises st) in
  (p, set_resultPromise (Some p) (set_promises (promises st ++ [Pending]) st)).

(** [if (this.resultPromise) { this.resultPromise.resolve(v);
    this.resultPromise = null; }] and the same with [reject]. *)
Definition deliver (s : settlement) (st : Session) : Session :=
  match resultPromise st with
  | Some p => set_resultPromise None (set_promises (settle p s (promises st)) st)
  | None => st
  end.

(** ** The OpenID collaborator *)

(** The callback parameters the class reads; each is a string or
    [undefined]. *)
Record CallbackParams := {
  code : option string;
  state : option string;
  error : option string;
  error_description : option string;
}.

(** The argument given to [authorizationUrl]. *)
Record AuthorizationParameters := {
  scopes : string;
  auth_state : string;
  code_challenge : string;
  code_challenge_method : string;
}.

(** The checks given to [oauthCallback]. *)
Record Checks := {
  checks_code_verifier : option string;
  checks_state : option string;
}.

(** The synchronous methods of [this.openIdClient]. *)
Record OpenIdClient := {
  callbackParams : string → CallbackParams;
  authorizationUrl : AuthorizationParameters → string;
}.

(** A double quote, for the attribute values of the pages. *)
Definition dq : string := String (Ascii.ascii_of_nat 34) EmptyString.

(** The instructions page, without the indentation of the template. *)
Definition indexFile (startLink : string) : string :=
  "<html lang=" +:+ dq +:+ "en" +:+ dq +:+ "><body><b>Step 1: <a href=" +:+ dq
  +:+ "./ca.pem" +:+ dq +:+ ">Download and install Certificate</a><p/>Step 2: <a href="
  +:+ dq +:+ startLink +:+ dq +:+ ">Login into the Daikin Cloud</a></b></body></html>".

Definition successFile : string :=
  "<html lang=" +:+ dq +:+ "en" +:+ dq
  +:+ "><body><b>Login successfully Done</b></body></html>".

(** A request seen by the proxy: its URL and its [host] header. *)
Record ClientRequest := {
  url : string;
  host : option string;
}.

(** The context the engine hands to a handler. *)
Record Ctx := {
  clientToProxyRequest : option ClientRequest;
}.

(** What a callback does to the promise of the operation it belongs to. *)
Inductive signal :=
| Silent
| Resolve (v : value)
| Reject (e : jsError)
| Uncaught (e : jsError).

(** Where [_retrieveTokens] stands when it first gives up control: finished,
    or waiting for [oauthCallback]. *)
Inductive retrieval :=
| Finished (c : completion value)
| Exchanging (redirect_uri : string) (params : CallbackParams) (checks : Checks).

Section Proxy.

(** [this.openIdClient]. *)
Variable openIdClient : OpenIdClient.
(** [generators.codeChallenge], the S256 transform of openid-client. *)
Variable codeChallenge : string → string.
(** [JSON.stringify] on callback parameters. *)
Variable JSON_stringify : CallbackParams → string.

(** *** PKCE flow generator *)

(** [_generateInitialUrl()].  [codeVerifier] and [state] are the values
    drawn by [generators.codeVerifier()] and [generators.state()]. *)
Definition _generateInitialUrl (codeVerifier state : string) (st : Session)
  : string * Session :=
  let challenge := codeChallenge codeVerifier in
  let st := set_openIdStore (js_set (openIdStore st) state codeVerifier) st in
  (authorizationUrl openIdClient
     {| scopes := "email,openid,profile"; auth_state := state;
        code_challenge := challenge; code_challenge_method := "S256" |},
   st).

(** *** Token exchanger *)

(** [_retrieveTokens(callbackUrl)] up to the call of [oauthCallback]. *)
Definition _retrieveTokens (callbackUrl : string) (st : Session)
  : retrieval * Session :=
  let params := callbackParams openIdClient callbackUrl in
  let entry := js_get (openIdStore st) (js_string (state params)) in
  if negb (jsval_truthy entry) then
    (Finished (Throw (Error ("Can not decode response for State "
                             +:+ js_string (state params)
                             +:+ ". Please reload start page and try again!"))),
     st)
  else if truthy (code params) then
    (Exchanging "daikinunified://login" params
       {| checks_code_verifier := get_code_verifier entry;
          checks_state := state params |},
     st)
  else if truthy (error params) then
    (Finished (Throw (Error (js_string (error params) +:+ ": "
                             +:+ js_string (error_description params)))),
     log_line ("Daikin-Cloud: ERROR: " +:+ JSON_stringify params) st)
  else (Finished (Return VUndefined), st).

(** [_retrieveTokens] after [oauthCallback] has answered with [r]. *)
Definition _retrieveTokens_resume (r : completion TokenSet) (st : Session)
  : completion value * Session :=
  match r with
  | Throw e => (Throw e, st)
  | Return tokenSet =>
      let st1 := log_debug ("Daikin-Cloud: received and validated tokens: "
                            +:+ ts_json tokenSet) st in
      if debugging st1 then
        match ts_claims tokenSet with
        | Some claims =>
            (Return (VTokenSet tokenSet),
             log_debug ("Daikin-Cloud: validated ID Token claims: " +:+ claims) st1)
        | None => (Throw (TypeError "id_token not present in TokenSet"), st1)
        end
      else (Return (VTokenSet tokenSet), st1)
  end.

(** *** Interception adapter *)

(** The handler given to [onRequest].  The result says whether a
    response-end handler is registered for the connection.  The response
    handler that closes the client socket with the server socket acts on
    the sockets only and is not part of the session.  In the debug line the
    conditional binds weaker than the concatenation, so the line is the URL
    alone. *)
Definition onRequest (req : ClientRequest) (st : Session) : bool * Session :=
  (truthy (host req) && includes "daikin" (js_string (host req)),
   log_debug (url req) st).

(** The end of the response-end handler: what follows the [await], in the
    [try] block or in the [catch] block. *)
Definition onResponseEnd_settle (c : completion value) (st : Session) : Session :=
  match c with
  | Return daikinTokenSet =>
      deliver (Fulfilled daikinTokenSet)
              (log_line "Daikin-Cloud: Token detection SUCCESS" st)
  | Throw err => deliver (Rejected err) st
  end.

(** The response-end handler on a response whose [location] header is
    [location].  When the exchange is started the handler is suspended
    and the request to the provider is returned. *)
Definition onResponseEnd (location : option string) (st : Session)
  : option (string * CallbackParams * Checks) * Session :=
  if truthy location && startsWith "daikinunified://" (js_string location) then
    match _retrieveTokens (js_string location) st with
    | (Finished c, st1) => (None, onResponseEnd_settle c st1)
    | (Exchanging u p k, st1) => (Some (u, p, k), st1)
    end
  else (None, st).

(** The response-end handler resumed with the answer of the provider. *)
Definition onResponseEnd_resume (r : completion TokenSet) (st : Session) : Session :=
  let (c, st1) := _retrieveTokens_resume r st in
  onResponseEnd_settle c st1.

(** The handler given to [onError]. *)
Definition onError (ctx : option Ctx) (err : option jsError) (st : Session)
  : completion unit * Session :=
  match err with
  | None =>
      (Throw (TypeError "Cannot read properties of null (reading 'code')"), st)
  | Some e =>
      if bool_decide (err_code e = Some "ECONNRESET")
         || bool_decide (err_code e = Some "ERR_SSL_UNSUPPORTED_PROTOCOL")
      then (Return (), st)
      else
        let url := match ctx with
                   | Some {| clientToProxyRequest := Some req |} => url req
                   | _ => ""
                   end in
        (Return (),
         log_line (js_string (err_code e) +:+ ": " +:+ err_stack e)
           (log_line ("Daikin-Cloud: SSL-Proxy ERROR for " +:+ url +:+ " : "
                      +:+ error_toString e) st))
  end.

(** *** Lifecycle manager: the callbacks *)

(** A callback that leaves the promise of its operation alone hands over
    to the next callback of the chain; any other signal ends the chain. *)
Definition and_then (r : signal * Session) (k : Session → signal * Session)
  : signal * Session :=
  match r with
  | (Silent, st) => k st
  | _ => r
  end.
Notation "r >>> k" := (and_then r k) (at level 61, left associativity).

(** [startServer()] up to the call of [this.proxyServer.listen]: the
    throw, the discarding of an old rendezvous, and the executor of the
    returned promise, which makes the proxy and registers the handlers. *)
Definition startServer_call (st : Session) : completion unit * Session :=
  match proxyServer st with
  | Some _ =>
      (Throw (Error "Proxy Server already started. Please stop before starting again."),
       st)
  | None =>
      let st :=
        deliver (Rejected (Error "Proxy Server just started. Discard old process.")) st in
      (Return (), set_proxyServer (Some Binding) st)
  end.

(** The callback of [this.proxyServer.listen]: the proxy is bound, the
    static server is made and asked to listen. *)
Definition proxyServer_listening (st : Session) : signal * Session :=
  let st := match proxyServer st with
            | Some _ => set_proxyServer (Some Listening) st
            | None => st
            end in
  (Silent, set_staticServer (Some Binding) st).

(** [this.proxyServer.close(cb)] as called by the class.  The engine closes
    its servers and drops them; its [close] takes no argument, so the
    callback [cb] is never run.  A second [close] fails on the dropped
    server, and a property access on [null] throws. *)
Definition proxyServer_close (st : Session) : signal * Session :=
  match proxyServer st with
  | Some Closing =>
      (Uncaught (TypeError "Cannot read properties of undefined (reading 'close')"), st)
  | Some _ => (Silent, set_proxyServer (Some Closing) st)
  | None => (Uncaught (TypeError "Cannot read properties of null (reading 'close')"), st)
  end.

(** [this.staticServer.close(cb)] as called by the class. *)
Definition staticServer_close (st : Session) : signal * Session :=
  match staticServer st with
  | Some _ => (Silent, set_staticServer (Some Closing) st)
  | None => (Uncaught (TypeError "Cannot read properties of undefined (reading 'close')"), st)
  end.

(** The ['error'] handler of the static server. *)
Definition staticServer_error (err : jsError) (st : Session) : signal * Session :=
  let st := log_line ("SSL-Proxy could not be started: " +:+ error_toString err) st in
  let st := log_line (err_stack err) st in
  proxyServer_close st.

(** The callback given to [this.proxyServer.close], in [startServer] and in
    [stopServer] alike.  It is what would run under an engine that calls
    the callback; the engine in use never does. *)
Definition proxyServer_closed (st : Session) : signal * Session :=
  staticServer_close (set_proxyServer None st).

(** The callback of [this.staticServer.close]; [final] is [reject(err)]
    in [startServer] and [resolve(true)] in [stopServer]. *)
Definition staticServer_closed (final : signal) (st : Session) : signal * Session :=
  (final, set_staticServer None st).

(** The callback of [this.staticServer.listen]: the pages are written and
    the promise of [startServer] is resolved. *)
Definition staticServer_listening (codeVerifier state : string) (st : Session)
  : signal * Session :=
  let st := match staticServer st with
            | Some _ => set_staticServer (Some Listening) st
            | None => st
            end in
  let (startLink, st) := _generateInitialUrl codeVerifier state st in
  let st := writeFileSync "certs/index.html" (indexFile startLink) st in
  let st := writeFileSync "certs/success.html" successFile st in
  (Resolve VTrue, st).

(** The executor of the promise of [stopServer()]. *)
Definition stopServer_call (st : Session) : signal * Session :=
  let st := deliver (Rejected (Error "Proxy Server stopped.")) st in
  match proxyServer st with
  | Some _ => proxyServer_close st
  | None => (Resolve VUndefined, st)
  end.

(** *** Lifecycle manager: whole operations *)

(** What the network answers while [startServer] runs: for each listener
    no error (it binds) or the error of the bind, and the values the
    generators draw. *)
Record Network := {
  proxy_bind : option jsError;
  static_bind : option jsError;
  drawn_codeVerifier : string;
  drawn_state : string;
}.

(** The promise of an operation once its chain of callbacks has run. *)
Definition settled (sg : signal) : settlement :=
  match sg with
  | Resolve v => Fulfilled v
  | Reject e => Rejected e
  | Silent | Uncaught _ => Pending
  end.

(** The promise of an operation once its executor has run: what is thrown
    in the executor rejects the promise. *)
Definition settled_by_executor (sg : signal) : settlement :=
  match sg with
  | Uncaught e => Rejected e
  | _ => settled sg
  end.

(** [startServer()] with all the callbacks it sets off.  The engine
    reports a failed bind of the proxy to the error handler and never
    calls the callback of [listen]; the static server emits ['error'], and
    its handler ends at the [close] of the proxy, whose callback is never
    run. *)
Definition startServer (net : Network) (st : Session)
  : completion settlement * Session :=
  match startServer_call st with
  | (Throw e, st) => (Throw e, st)
  | (Return (), st) =>
      match proxy_bind net with
      | Some e => (Return Pending, (onError None (Some e) st).2)
      | None =>
          let r :=
            match static_bind net with
            | Some e =>
                proxyServer_listening st
                >>> staticServer_error e
            | None =>
                proxyServer_listening st
                >>> staticServer_listening (drawn_codeVerifier net) (drawn_state net)
            end in
          (Return (settled r.1), r.2)
      end
  end.

(** [stopServer()].  The callback given to the [close] of the proxy is
    never run: with a proxy in the slot the promise is left pending, or is
    rejected when the [close] throws. *)
Definition stopServer (st : Session) : settlement * Session :=
  let r := stopServer_call st in
  (settled_by_executor r.1, r.2).

(** *** Runs *)

(** What can happen to a session: a call of the public interface, or a
    callback fired by an engine.  The callbacks of the two [close] calls
    are events as well, for an engine that runs them. *)
Inductive event :=
| CallStart
| CallStop
| CallWait
| ProxyListening
| StaticListening (codeVerifier state : string)
| StaticError (err : jsError)
| ProxyClosed
| StaticClosed
| Request (req : ClientRequest)
| ResponseEnd (location : option string)
| ExchangeDone (r : completion TokenSet)
| ProxyError (ctx : option Ctx) (err : option jsError).

Definition step (st : Session) (ev : event) : Session :=
  match ev with
  | CallStart => (startServer_call st).2
  | CallStop => (stopServer_call st).2
  | CallWait => (waitForTokenResponse st).2
  | ProxyListening => (proxyServer_listening st).2
  | StaticListening v s => (staticServer_listening v s st).2
  | StaticError err => (staticServer_error err st).2
  | ProxyClosed => (proxyServer_closed st).2
  | StaticClosed => (staticServer_closed Silent st).2
  | Request req => (onRequest req st).2
  | ResponseEnd location => (onResponseEnd location st).2
  | ExchangeDone r => onResponseEnd_resume r st
  | ProxyError ctx err => (onError ctx err st).2
  end.

Definition run (st : Session) (evs : list event) : Session :=
  foldl step st evs.

End Proxy.

(** ** A concrete client for the examples

    A stand-in for the collaborators, used only to run the class on explicit
    redirects: the callback parameters are read from the query of the URL
    (no percent-decoding), the challenge and the URL are written out
    symbolically. *)

(** [s] cut at the first [c]: what is before, and what is after if [c]
    occurs. *)
Fixpoint cut (c : ascii) (s : string) : string * option string :=
  match s with
  | EmptyString => (EmptyString, None)
  | String a rest =>
      if decide (a = c) then (EmptyString, Some rest)
      else let (before, after) := cut c rest in (String a before, after)
  end.

(** The fields of a query, [k=v] separated by [&]. *)
Fixpoint fields (fuel : nat) (q : string) : list (string * string) :=
  match fuel with
  | O => []
  | S fuel =>
      let (kv, rest) := cut "&"%char q in
      let (k, v) := cut "="%char kv in
      (k, default "" v) :: match rest with
                           | Some rest => fields fuel rest
                           | None => []
                           end
  end.

Definition query_get (key : string) (kvs : list (string * string)) : option string :=
  snd <$> List.find (λ kv, bool_decide (kv.1 = key)) kvs.

Definition demo_callbackParams (input : string) : CallbackParams :=
  let kvs := match (cut "?"%char input).2 with
             | Some q => fields (S (String.length q)) q
             | None => []
             end in
  {| code := query_get "code" kvs; state := query_get "state" kvs;
     error := query_get "error" kvs;
     error_description := query_get "error_description" kvs |}.

Definition demo_authorizationUrl (a : AuthorizationParameters) : string :=
  "https://idp.example/authorize?scope=" +:+ scopes a +:+ "&state=" +:+ auth_state a
  +:+ "&code_challenge=" +:+ code_challenge a
  +:+ "&code_challenge_method=" +:+ code_challenge_method a.

Definition demo_client : OpenIdClient :=
  {| callbackParams := demo_callbackParams; authorizationUrl := demo_authorizationUrl |}.

Definition demo_codeChallenge (v : string) : string := "S256(" +:+ v +:+ ")".

Definition demo_stringify (p : CallbackParams) : string :=
  "{code:" +:+ js_string (code p) +:+ ",state:" +:+ js_string (state p)
  +:+ ",error:" +:+ js_string (error p) +:+ ",error_description:"
  +:+ js_string (error_description p) +:+ "}".

(** A session with a logger, and the same session once a caller waits. *)
Definition demo_options : Options :=
  {| proxyOwnIp := ""; proxyListenBind := "0.0.0.0"; proxyPort := 8888;
     proxyWebPort := 8889; proxyDataDir := "data"; logger := true;
     logLevel := None |}.

Definition demo_session : Session := constructor (Some demo_options).

Definition demo_waiting : Session := (waitForTokenResponse demo_session).2.

(** A network on which both listeners bind. *)
Definition demo_network : Network :=
  {| proxy_bind := None; static_bind := None;
     drawn_codeVerifier := "verifier-1"; drawn_state := "state-1" |}.

(** The error of a bind on a port in use. *)
Definition EADDRINUSE : jsError :=
  {| err_name := "Error"; err_message := "listen EADDRINUSE: address already in use";
     err_code := Some "EADDRINUSE";
     err_stack := "Error: listen EADDRINUSE: address already in use" |}.

(** The running session: started on [demo_network], with a caller waiting. *)
Definition demo_running : Session :=
  (waitForTokenResponse
     (startServer demo_client demo_codeChallenge demo_network demo_session).2).2.

(** ** Notions used by the statements *)

(** The rendezvous of a session: the slot and the promises. *)
Definition rendezvous (st : Session) : option nat * list settlement :=
  (resultPromise st, promises st).

(** The three things a step can do to the rendezvous: nothing, a delivery,
    or a new wait. *)
Inductive rendezvous_move (st st' : Session) : Prop :=
| move_none : rendezvous st' = rendezvous st → rendezvous_move st st'
| move_deliver s :
    rendezvous st' = rendezvous (deliver s st) → rendezvous_move st st'
| move_wait :
    rendezvous st' = rendezvous (waitForTokenResponse st).2 →
    rendezvous_move st st'.

(** The slot only ever holds a promise that is still pending. *)
Definition slot_pending (st : Session) : Prop :=
  ∀ p, resultPromise st = Some p → promises st !! p = Some Pending.

(** From promise [n] on: the promises below [n] are out of reach of the
    session, every promise it holds has index [n] or more. *)
Definition holds_from (n : nat) (st : Session) : Prop :=
  (n ≤ length (promises st))%nat ∧ ∀ p, resultPromise st = Some p → (n ≤ p)%nat.

(** The settlement a delivery asks for. *)
Definition delivered (c : completion value) : settlement :=
  match c with
  | Return v => Fulfilled v
  | Throw e => Rejected e
  end.

(** The events [startServer] and [stopServer] set off, in order. *)
Definition start_events (net : Network) : list event :=
  CallStart ::
  match proxy_bind net with
  | Some e => [ProxyError None (Some e)]
  | None =>
      ProxyListening ::
      match static_bind net with
      | Some e => [StaticError e]
      | None => [StaticListening (drawn_codeVerifier net) (drawn_state net)]
      end
  end.

Definition stop_events : list event := [CallStop].

(** ** Notions used by the further statements *)

(** Does the event write the state [s] to the store? *)
Definition draws (s : string) (ev : event) : bool :=
  match ev with
  | StaticListening _ s' => bool_decide (s' = s)
  | _ => false
  end.

(** Is the event the callback of the [close] of the proxy? *)
Definition is_ProxyClosed (ev : event) : bool :=
  match ev with
  | ProxyClosed => true
  | _ => false
  end.

(** [st'] is [st] with some lines added to the log, none of them when no
    logger was given. *)
Definition logs_only (st st' : Session) : Prop :=
  options st' = options st
  ∧ openIdStore st' = openIdStore st
  ∧ proxyServer st' = proxyServer st
  ∧ staticServer st' = staticServer st
  ∧ resultPromise st' = resultPromise st
  ∧ promises st' = promises st
  ∧ files st' = files st
  ∧ ∃ lines, log st' = (log st ++ lines)%list
             ∧ (logger (options st) = false → lines = []).

(** The log of [st'] is the log of [st] with some lines added, none of them
    when no logger was given. *)
Definition log_grows (st st' : Session) : Prop :=
  ∃ lines, log st' = (log st ++ lines)%list
           ∧ (logger (options st) = false → lines = []).

(** The two pages written when the static server is up. *)
Definition pages (dataDir startLink : string) : list (string * string) :=
  [ (dataDir +:+ "/" +:+ "certs/index.html", indexFile startLink);
    (dataDir +:+ "/" +:+ "certs/success.html", successFile) ].

(** * Properties *)

(** ** Promises settle once *)

Lemma settle_length p s ps : length (settle p s ps) = length ps.
Proof.
  unfold settle. destruct (ps !! p) as [[]|]; auto using length_insert.
Qed.

Lemma settle_pending p s ps :
  ps !! p = Some Pending → settle p s ps !! p = Some s.
Proof.
  intros Hp. unfold settle. rewrite Hp.
  apply list_lookup_insert_eq. by eapply lookup_lt_Some.
Qed.

Lemma settle_other p q s ps : q ≠ p → settle p s ps !! q = ps !! q.
Proof.
  intros Hne. unfold settle.
  destruct (ps !! p) as [[]|]; auto using list_lookup_insert_ne.
Qed.

(** A promise that is settled keeps its settlement whatever is settled
    afterwards. *)
Lemma settle_settled p q s x ps :
  ps !! q = Some x → x ≠ Pending → settle p s ps !! q = Some x.
Proof.
  intros Hq Hx. destruct (decide (q = p)) as [->|Hne].
  - unfold settle. rewrite Hq. by destruct x.
  - by rewrite settle_other.
Qed.

(** ** The store *)

Lemma js_get_set o key v : js_get (js_set o key v) key = Entry v.
Proof.
  unfold js_get, js_set. destruct (decide (key = "__proto__")) as [->|Hk]; cbn.
  - done.
  - by rewrite lookup_insert_eq.
Qed.

Lemma proto_key_not_inherited : "__proto__" ∉ Object_prototype.
Proof. by apply (bool_decide_unpack (_ ∉ _)). Qed.

(** A state that is neither an own property nor a name found on the
    prototype chain reads as [undefined]. *)
Lemma js_get_absent o key :
  own o !! key = None → proto o = None → key ∉ Object_prototype →
  key ≠ "__proto__" → js_get o key = Undefined.
Proof.
  intros Hown Hproto Hin Hk. unfold js_get, inherited.
  rewrite decide_False by done. rewrite Hown, Hproto.
  by rewrite decide_False.
Qed.

(** ** Logging and delivering leave the rest of the session alone *)

Lemma log_line_fields l st :
  options (log_line l st) = options st
  ∧ openIdStore (log_line l st) = openIdStore st
  ∧ proxyServer (log_line l st) = proxyServer st
  ∧ staticServer (log_line l st) = staticServer st
  ∧ resultPromise (log_line l st) = resultPromise st
  ∧ promises (log_line l st) = promises st.
Proof. unfold log_line. by destruct (logger _). Qed.

Lemma deliver_fields s st :
  options (deliver s st) = options st
  ∧ openIdStore (deliver s st) = openIdStore st
  ∧ proxyServer (deliver s st) = proxyServer st
  ∧ staticServer (deliver s st) = staticServer st
  ∧ log (deliver s st) = log st.
Proof. unfold deliver. by destruct (resultPromise st). Qed.

Lemma options_log_line l st : options (log_line l st) = options st.
Proof. apply log_line_fields. Qed.
Lemma openIdStore_log_line l st : openIdStore (log_line l st) = openIdStore st.
Proof. apply log_line_fields. Qed.
Lemma proxyServer_log_line l st : proxyServer (log_line l st) = proxyServer st.
Proof. apply log_line_fields. Qed.
Lemma staticServer_log_line l st : staticServer (log_line l st) = staticServer st.
Proof. apply log_line_fields. Qed.
Lemma resultPromise_log_line l st : resultPromise (log_line l st) = resultPromise st.
Proof. apply log_line_fields. Qed.
Lemma promises_log_line l st : promises (log_line l st) = promises st.
Proof. apply log_line_fields. Qed.
Lemma options_deliver s st : options (deliver s st) = options st.
Proof. apply deliver_fields. Qed.
Lemma openIdStore_deliver s st : openIdStore (deliver s st) = openIdStore st.
Proof. apply deliver_fields. Qed.
Lemma proxyServer_deliver s st : proxyServer (deliver s st) = proxyServer st.
Proof. apply deliver_fields. Qed.
Lemma staticServer_deliver s st : staticServer (deliver s st) = staticServer st.
Proof. apply deliver_fields. Qed.
Lemma log_deliver s st : log (deliver s st) = log st.
Proof. apply deliver_fields. Qed.

Lemma log_log_line l st :
  logger (options st) = true → log (log_line l st) = (log st ++ [l])%list.
Proof. intros Hl. unfold log_line. by rewrite Hl. Qed.

Lemma log_line_silent l st : logger (options st) = false → log_line l st = st.
Proof. intros Hl. unfold log_line. by rewrite Hl. Qed.

Create Rewrite HintDb session.
#[global] Hint Rewrite options_log_line openIdStore_log_line proxyServer_log_line
  staticServer_log_line resultPromise_log_line promises_log_line
  options_deliver openIdStore_deliver proxyServer_deliver staticServer_deliver
  log_deliver : session.

(** ** What the operations do to the rendezvous *)

Lemma rendezvous_log_line l st : rendezvous (log_line l st) = rendezvous st.
Proof. unfold log_line. by destruct (logger _). Qed.

Lemma rendezvous_log_debug l st : rendezvous (log_debug l st) = rendezvous st.
Proof. unfold log_debug. by destruct (debugging _). Qed.

Lemma deliver_slot s st : resultPromise (deliver s st) = None.
Proof. unfold deliver. by destruct (resultPromise st) eqn:Hslot. Qed.

Lemma deliver_promises s st :
  promises (deliver s st) =
  match resultPromise st with
  | Some p => settle p s (promises st)
  | None => promises st
  end.
Proof. unfold deliver. by destruct (resultPromise st). Qed.

Lemma deliver_length s st : length (promises (deliver s st)) = length (promises st).
Proof.
  rewrite deliver_promises. destruct (resultPromise st); auto using settle_length.
Qed.

#[global] Hint Rewrite deliver_slot deliver_promises : session.

(** Compute through the setters, and through logging and delivering. *)
Ltac simpl_session :=
  repeat first [ progress cbn | progress (autorewrite with session) ].

Lemma rendezvous_deliver_ext s st st' :
  rendezvous st = rendezvous st' →
  rendezvous (deliver s st) = rendezvous (deliver s st').
Proof.
  unfold rendezvous. intros [= Hslot Hps].
  by rewrite !deliver_slot, !deliver_promises, Hslot, Hps.
Qed.

Lemma slot_pending_move st st' :
  rendezvous_move st st' → slot_pending st → slot_pending st'.
Proof.
  unfold slot_pending, rendezvous.
  intros [Hm | s Hm | Hm] Hinv p; injection Hm as -> ->.
  - auto.
  - by rewrite deliver_slot.
  - cbn. intros [= <-]. by rewrite lookup_app_r, Nat.sub_diag.
Qed.

Lemma holds_from_move n st st' :
  rendezvous_move st st' → holds_from n st →
  holds_from n st' ∧ ∀ q, (q < n)%nat → promises st' !! q = promises st !! q.
Proof.
  unfold holds_from, rendezvous.
  intros [Hm | s Hm | Hm] [Hlen Hslot]; injection Hm as -> ->.
  - auto.
  - rewrite deliver_slot, deliver_length, deliver_promises.
    repeat split; [done..|].
    intros q Hq. destruct (resultPromise st) as [p|] eqn:Hp; [|done].
    apply settle_other. specialize (Hslot p eq_refl). lia.
  - cbn. rewrite length_app. cbn. repeat split; [lia | |].
    + by intros p [= <-].
    + intros q Hq. apply lookup_app_l. lia.
Qed.

(** ** Every step is one of the three moves *)

Section Properties.

Variable openIdClient : OpenIdClient.
Variable codeChallenge : string → string.
Variable JSON_stringify : CallbackParams → string.

Local Abbreviation _retrieveTokens := (_retrieveTokens openIdClient JSON_stringify).
Local Abbreviation onResponseEnd := (onResponseEnd openIdClient JSON_stringify).
Local Abbreviation step := (step openIdClient codeChallenge JSON_stringify).
Local Abbreviation run := (run openIdClient codeChallenge JSON_stringify).

Lemma retrieveTokens_rendezvous callbackUrl st :
  rendezvous (_retrieveTokens callbackUrl st).2 = rendezvous st.
Proof.
  unfold _retrieveTokens.
  repeat case_match; cbn; auto using rendezvous_log_line.
Qed.

Lemma retrieveTokens_resume_rendezvous r st :
  rendezvous (_retrieveTokens_resume r st).2 = rendezvous st.
Proof.
  unfold _retrieveTokens_resume.
  repeat case_match; cbn; by rewrite ?rendezvous_log_debug.
Qed.

Lemma onResponseEnd_settle_move c st st1 :
  rendezvous st1 = rendezvous st →
  rendezvous_move st (onResponseEnd_settle c st1).
Proof.
  intros Hst. destruct c as [v|e]; cbn.
  - apply (move_deliver _ _ (Fulfilled v)). apply rendezvous_deliver_ext.
    by rewrite rendezvous_log_line.
  - apply (move_deliver _ _ (Rejected e)). by apply rendezvous_deliver_ext.
Qed.

Lemma close_chain_rendezvous st :
  rendezvous (proxyServer_close st).2 = rendezvous st
  ∧ rendezvous (staticServer_close st).2 = rendezvous st.
Proof.
  unfold proxyServer_close, staticServer_close.
  by destruct (proxyServer st) as [[]|], (staticServer st).
Qed.

Lemma step_move st ev : rendezvous_move st (step st ev).
Proof.
  destruct ev; cbn [step].
  - unfold startServer_call. destruct (proxyServer st); cbn.
    + by apply move_none.
    + by eapply move_deliver.
  - unfold stopServer_call. eapply move_deliver.
    destruct (proxyServer (deliver _ st)); cbn; [|done].
    apply close_chain_rendezvous.
  - by apply move_wait.
  - apply move_none. unfold proxyServer_listening. by destruct (proxyServer st).
  - apply move_none. unfold staticServer_listening, _generateInitialUrl.
    by destruct (staticServer st).
  - apply move_none. unfold staticServer_error.
    rewrite (proj1 (close_chain_rendezvous _)).
    by rewrite !rendezvous_log_line.
  - apply move_none. unfold proxyServer_closed.
    by rewrite (proj2 (close_chain_rendezvous _)).
  - by apply move_none.
  - apply move_none. cbn. apply rendezvous_log_debug.
  - unfold onResponseEnd.
    destruct (truthy location && _); [|by apply move_none].
    pose proof (retrieveTokens_rendezvous (js_string location) st) as Hr.
    destruct (_retrieveTokens _ st) as [[c|u p k] st1]; cbn in *.
    + by apply onResponseEnd_settle_move.
    + by apply move_none.
  - unfold onResponseEnd_resume.
    pose proof (retrieveTokens_resume_rendezvous r st) as Hr.
    destruct (_retrieveTokens_resume r st) as [c st1].
    by apply onResponseEnd_settle_move.
  - apply move_none. unfold onError.
    repeat case_match; cbn; by rewrite ?rendezvous_log_line.
Qed.

(** ** Invariants of runs *)

Lemma constructor_slot_pending opts : slot_pending (constructor opts).
Proof. by intros p. Qed.

Lemma run_slot_pending st evs : slot_pending st → slot_pending (run st evs).
Proof.
  revert st. induction evs as [|ev evs IH]; intros st Hst; [done|].
  cbn. apply IH. eauto using slot_pending_move, step_move.
Qed.

(** Promises below the mark are never touched again. *)
Lemma run_holds_from n st evs :
  holds_from n st →
  holds_from n (run st evs)
  ∧ ∀ q, (q < n)%nat → promises (run st evs) !! q = promises st !! q.
Proof.
  revert st. induction evs as [|ev evs IH]; intros st Hst; [done|].
  cbn. destruct (holds_from_move n st (step st ev) (step_move st ev) Hst)
    as [Hst' Hsame].
  destruct (IH _ Hst') as [Hrun Hsame']. split; [done|].
  intros q Hq. by rewrite Hsame', Hsame.
Qed.

(** A settled promise keeps its settlement for the rest of the run. *)
Lemma step_settled st ev q x :
  promises st !! q = Some x → x ≠ Pending →
  promises (step st ev) !! q = Some x.
Proof.
  intros Hq Hx. destruct (step_move st ev) as [Hm | s Hm | Hm];
    injection Hm as _ ->.
  - done.
  - rewrite deliver_promises. destruct (resultPromise st); [|done].
    by apply settle_settled.
  - cbn. rewrite lookup_app_l; [done|]. by eapply lookup_lt_Some.
Qed.

Lemma run_settled st evs q x :
  promises st !! q = Some x → x ≠ Pending →
  promises (run st evs) !! q = Some x.
Proof.
  revert st. induction evs as [|ev evs IH]; intros st Hq Hx; [done|].
  cbn. apply IH; [|done]. by apply step_settled.
Qed.

(** The whole operations are runs of their events. *)
Lemma startServer_call_stopped st :
  proxyServer st = None →
  startServer_call st =
  (Return (),
   set_proxyServer (Some Binding)
     (deliver (Rejected (Error "Proxy Server just started. Discard old process.")) st)).
Proof. intros Hp. unfold startServer_call. by rewrite Hp. Qed.

Lemma startServer_run net st :
  proxyServer st = None →
  (startServer openIdClient codeChallenge net st).2 = run st (start_events net).
Proof.
  intros Hp. unfold startServer, start_events.
  destruct net as [[e|] [e'|] v s]; cbn;
    rewrite (startServer_call_stopped st Hp); cbn; try done.
  all: by repeat case_match.
Qed.

Lemma stopServer_run st : (stopServer st).2 = run st stop_events.
Proof. done. Qed.

(** ** The rendezvous controller *)

(** A second wait leaves the first promise alone: it stays pending, it is no
    longer the one the session holds, and no later event settles it. *)
Lemma waitForTokenResponse_orphans st evs p :
  resultPromise st = Some p → promises st !! p = Some Pending →
  let st' := (waitForTokenResponse st).2 in
  resultPromise st' = Some (length (promises st))
  ∧ promises (run st' evs) !! p = Some Pending.
Proof.
  intros Hslot Hp st'. split; [done|].
  pose proof (lookup_lt_Some _ _ _ Hp) as Hlt.
  destruct (run_holds_from (S p) st' evs) as [_ Hsame].
  - subst st'. split; cbn.
    + rewrite length_app. cbn. lia.
    + intros q [= <-]. lia.
  - rewrite Hsame by lia. subst st'. cbn. by rewrite lookup_app_l.
Qed.

(** C1 (code bug).  Two calls of [waitForTokenResponse] in succession: the
    promise returned by the first call is not rejected.  It is still pending
    after the second call, the session holds the second promise instead, and
    whatever happens afterwards the first promise stays pending. *)
Theorem waitForTokenResponse_twice_first_stays_pending opts evs0 evs :
  let r1 := waitForTokenResponse (run (constructor opts) evs0) in
  let r2 := waitForTokenResponse r1.2 in
  promises r1.2 !! r1.1 = Some Pending
  ∧ resultPromise r1.2 = Some r1.1
  ∧ promises r2.2 !! r1.1 = Some Pending
  ∧ resultPromise r2.2 = Some r2.1
  ∧ r2.1 ≠ r1.1
  ∧ promises (run r2.2 evs) !! r1.1 = Some Pending.
Proof.
  intros r1 r2.
  assert (promises r1.2 !! r1.1 = Some Pending) as Hp
    by (subst r1; cbn; by rewrite lookup_app_r, Nat.sub_diag).
  repeat split; try done.
  - subst r2 r1. cbn. rewrite lookup_app_l; [done|].
    rewrite length_app. cbn. lia.
  - subst r2 r1. cbn. rewrite length_app. cbn. lia.
  - by apply (waitForTokenResponse_orphans r1.2 evs r1.1).
Qed.

(** C3.  A delivery from the interception callback, in any state a session
    can reach.  The slot is empty afterwards.  If a rendezvous was active,
    its promise now carries what was delivered, no other promise changed,
    and nothing that happens later changes it again; if none was active, no
    promise changed and the session is as before, but for the success line
    given to the logger.  A second delivery changes nothing: the first one
    wins.  (The delivery is a total function of the session: it cannot
    throw.) *)
Theorem delivery_settles_active_rendezvous_once opts evs c c' evs' :
  let st := run (constructor opts) evs in
  let st' := onResponseEnd_settle c st in
  resultPromise st' = None
  ∧ match resultPromise st with
    | Some p =>
        promises st !! p = Some Pending
        ∧ promises st' !! p = Some (delivered c)
        ∧ (∀ q, q ≠ p → promises st' !! q = promises st !! q)
        ∧ promises (run st' evs') !! p = Some (delivered c)
    | None =>
        st' = match c with
              | Return _ => log_line "Daikin-Cloud: Token detection SUCCESS" st
              | Throw _ => st
              end
        ∧ promises st' = promises st
    end
  ∧ rendezvous (onResponseEnd_settle c' st') = rendezvous st'.
Proof.
  intros st st'.
  assert (slot_pending st) as Hinv
    by apply run_slot_pending, constructor_slot_pending.
  assert (resultPromise st' = None) as Hnone
    by (subst st'; destruct c; cbn; apply deliver_slot).
  assert (promises st' =
          match resultPromise st with
          | Some p => settle p (delivered c) (promises st)
          | None => promises st
          end) as Hps
    by (subst st'; destruct c; cbn; by autorewrite with session).
  split; [done|]. split.
  - destruct (resultPromise st) as [p|] eqn:Hslot.
    2:{ split; [|done]. subst st'. unfold onResponseEnd_settle, deliver.
        destruct c; by rewrite ?resultPromise_log_line, Hslot. }
    pose proof (Hinv p Hslot) as Hp.
    assert (promises st' !! p = Some (delivered c)) as Hp'
      by (rewrite Hps; by apply settle_pending).
    repeat split; [done..| |].
    + intros q Hq. rewrite Hps. by apply settle_other.
    + apply run_settled; [done|]. by destruct c.
  - unfold rendezvous. destruct c'; cbn; autorewrite with session;
      by rewrite Hnone.
Qed.

(** C10.  [startServer] called on a session that is not running while a
    rendezvous from before is outstanding: the call does not throw, the old
    promise is rejected and the slot is emptied before the proxy is made,
    and from then on no promise made before the call is touched by the
    session, whatever events follow. *)
Theorem startServer_discards_old_rendezvous opts evs p evs' :
  let st := run (constructor opts) evs in
  proxyServer st = None → resultPromise st = Some p →
  let r := startServer_call st in
  r.1 = Return ()
  ∧ proxyServer r.2 = Some Binding
  ∧ resultPromise r.2 = None
  ∧ promises r.2 !! p
    = Some (Rejected (Error "Proxy Server just started. Discard old process."))
  ∧ ∀ q, (q < length (promises st))%nat →
         promises (run r.2 evs') !! q = promises r.2 !! q.
Proof.
  intros st Hproxy Hslot r.
  assert (slot_pending st) as Hinv
    by apply run_slot_pending, constructor_slot_pending.
  subst r. rewrite (startServer_call_stopped st Hproxy). simpl_session.
  rewrite Hslot. repeat split.
  - apply settle_pending; auto.
  - intros q Hq.
    match goal with |- promises (run ?s _) !! _ = _ =>
      destruct (run_holds_from (length (promises st)) s evs') as [_ Hsame]
    end.
    + split; simpl_session; [|done]. rewrite Hslot. by rewrite settle_length.
    + rewrite Hsame by done. simpl_session. by rewrite Hslot.
Qed.

(** ** The lifecycle manager *)

Local Abbreviation startServer := (startServer openIdClient codeChallenge).

(** On a network where both listeners bind, a session that is not running
    starts: the promise of [startServer] is resolved with [true] and both
    listeners are up. *)
Lemma startServer_binds net st :
  proxyServer st = None → proxy_bind net = None → static_bind net = None →
  (startServer net st).1 = Return (Fulfilled VTrue)
  ∧ proxyServer (startServer net st).2 = Some Listening
  ∧ staticServer (startServer net st).2 = Some Listening.
Proof.
  intros Hp Hproxy Hstatic. unfold startServer.
  rewrite (startServer_call_stopped st Hp), Hproxy, Hstatic. by simpl_session.
Qed.

(** When the static server fails to bind, its handler logs and closes the
    proxy, and there it ends: the promise of [startServer] is never settled
    and both objects stay in their slots. *)
Lemma startServer_static_bind_fails net st e :
  proxyServer st = None → proxy_bind net = None → static_bind net = Some e →
  (startServer net st).1 = Return Pending
  ∧ proxyServer (startServer net st).2 = Some Closing
  ∧ staticServer (startServer net st).2 = Some Binding.
Proof.
  intros Hp Hproxy Hstatic. unfold startServer.
  rewrite (startServer_call_stopped st Hp), Hproxy, Hstatic. simpl_session.
  unfold staticServer_error, proxyServer_close. by simpl_session.
Qed.

Lemma stopServer_stopped st :
  proxyServer st = None →
  stopServer st
  = (Fulfilled VUndefined, deliver (Rejected (Error "Proxy Server stopped.")) st).
Proof.
  intros Hp. unfold stopServer, stopServer_call.
  autorewrite with session. by rewrite Hp.
Qed.

Lemma stopServer_running st l :
  proxyServer st = Some l → l ≠ Closing →
  stopServer st
  = (Pending,
     set_proxyServer (Some Closing)
       (deliver (Rejected (Error "Proxy Server stopped.")) st)).
Proof.
  intros Hp Hl. unfold stopServer, stopServer_call, proxyServer_close.
  autorewrite with session. rewrite Hp. by destruct l.
Qed.

Lemma stopServer_rendezvous st :
  rendezvous (stopServer st).2
  = rendezvous (deliver (Rejected (Error "Proxy Server stopped.")) st).
Proof.
  unfold stopServer, stopServer_call, proxyServer_close.
  autorewrite with session. by repeat case_match.
Qed.

Lemma stopServer_resultPromise st : resultPromise (stopServer st).2 = None.
Proof.
  change (resultPromise (stopServer st).2) with (rendezvous (stopServer st).2).1.
  rewrite stopServer_rendezvous. apply deliver_slot.
Qed.

Lemma stopServer_promises st :
  promises (stopServer st).2 =
  match resultPromise st with
  | Some p => settle p (Rejected (Error "Proxy Server stopped.")) (promises st)
  | None => promises st
  end.
Proof.
  change (promises (stopServer st).2) with (rendezvous (stopServer st).2).2.
  rewrite stopServer_rendezvous. apply deliver_promises.
Qed.

(** Whatever the session, [stopServer] rejects the rendezvous it finds in
    the slot and empties the slot. *)
Lemma stopServer_rejects_rendezvous st p :
  resultPromise st = Some p → promises st !! p = Some Pending →
  promises (stopServer st).2 !! p = Some (Rejected (Error "Proxy Server stopped."))
  ∧ resultPromise (stopServer st).2 = None.
Proof.
  intros Hslot Hp. split; [|apply stopServer_resultPromise].
  rewrite stopServer_promises, Hslot. by apply settle_pending.
Qed.

Lemma startServer_running net st l :
  proxyServer st = Some l →
  startServer net st
  = (Throw (Error "Proxy Server already started. Please stop before starting again."),
     st).
Proof. intros Hp. unfold startServer, startServer_call. by rewrite Hp. Qed.

Lemma waitForTokenResponse_pending st :
  promises (waitForTokenResponse st).2 !! (waitForTokenResponse st).1
  = Some Pending.
Proof. cbn. by rewrite lookup_app_r, Nat.sub_diag. Qed.

(** C4 (code bug).  A new session is started on a network where both
    listeners bind, a caller waits, and [stopServer] is called.  The promise
    of the rendezvous is rejected with the error ["Proxy Server stopped."]
    and the slot is emptied.  But the proxy slot is cleared and the promise
    of [stopServer] resolved only in the callbacks given to [close], which
    never run: the promise of [stopServer] stays pending, both objects stay
    in their slots, and a following [startServer] throws.  With no proxy in
    the slot [stopServer] resolves at once, without error. *)
Theorem stopServer_leaves_proxy_in_its_slot opts v s net' :
  let net := {| proxy_bind := None; static_bind := None;
                drawn_codeVerifier := v; drawn_state := s |} in
  let w := waitForTokenResponse (startServer net (constructor opts)).2 in
  let r := stopServer w.2 in
  promises r.2 !! w.1 = Some (Rejected (Error "Proxy Server stopped."))
  ∧ resultPromise r.2 = None
  ∧ r.1 = Pending
  ∧ proxyServer r.2 = Some Closing
  ∧ staticServer r.2 = Some Listening
  ∧ (startServer net' r.2).1
    = Throw (Error "Proxy Server already started. Please stop before starting again.")
  ∧ (stopServer (constructor opts)).1 = Fulfilled VUndefined.
Proof.
  intros net w r.
  assert ((stopServer (constructor opts)).1 = Fulfilled VUndefined) as Hidle
    by reflexivity.
  destruct (startServer_binds net (constructor opts)) as (_ & Hproxy & Hstatic);
    [done..|].
  subst r w. revert Hproxy Hstatic.
  generalize (startServer net (constructor opts)).2. intros st1 Hproxy Hstatic.
  destruct (stopServer_rejects_rendezvous (waitForTokenResponse st1).2
              (waitForTokenResponse st1).1) as [Hrej Hslot];
    [done | apply waitForTokenResponse_pending |].
  rewrite (stopServer_running (waitForTokenResponse st1).2 Listening) in *
    by done.
  split_and!.
  - exact Hrej.
  - exact Hslot.
  - reflexivity.
  - reflexivity.
  - cbn. by autorewrite with session.
  - by rewrite (startServer_running net' _ Closing).
  - exact Hidle.
Qed.

(** The error handler writes to the log and to nothing else. *)
Lemma onError_fields ctx err st :
  proxyServer (onError ctx err st).2 = proxyServer st
  ∧ staticServer (onError ctx err st).2 = staticServer st
  ∧ rendezvous (onError ctx err st).2 = rendezvous st
  ∧ openIdStore (onError ctx err st).2 = openIdStore st.
Proof.
  unfold onError, rendezvous. repeat case_match; by simpl_session.
Qed.

(** When the proxy fails to bind, the promise of [startServer] is never
    settled and the proxy object stays in its slot. *)
Lemma startServer_proxy_bind_fails net st e :
  proxyServer st = None → proxy_bind net = Some e →
  (startServer net st).1 = Return Pending
  ∧ proxyServer (startServer net st).2 = Some Binding
  ∧ staticServer (startServer net st).2 = staticServer st.
Proof.
  intros Hp Hproxy. unfold startServer.
  rewrite (startServer_call_stopped st Hp), Hproxy. cbn [fst snd].
  destruct (onError_fields None (Some e)
              (set_proxyServer (Some Binding)
                 (deliver (Rejected (Error "Proxy Server just started. Discard old process.")) st)))
    as (-> & -> & _).
  by simpl_session.
Qed.

(** C5 (code bug).  [startServer] on a fresh session when the proxy cannot
    bind.  The engine hands the error to the error handler, which only logs:
    the promise of [startServer] is never settled, the proxy object stays in
    its slot and no listener is closed, so that the next [startServer]
    throws. *)
Theorem startServer_proxy_bind_failure_leaves_session opts e static v s net' :
  let net := {| proxy_bind := Some e; static_bind := static;
                drawn_codeVerifier := v; drawn_state := s |} in
  let r := startServer net (constructor opts) in
  r.1 = Return Pending
  ∧ proxyServer r.2 = Some Binding
  ∧ staticServer r.2 = None
  ∧ (startServer net' r.2).1
    = Throw (Error "Proxy Server already started. Please stop before starting again.").
Proof.
  intros net r.
  destruct (startServer_proxy_bind_fails net (constructor opts) e)
    as (Hr & Hp & Hs); [done..|].
  subst r. repeat split; [done..|].
  by rewrite (startServer_running net' _ Binding).
Qed.

(** ** The token exchanger *)

(** A state that reads as [undefined] in the store is refused before any
    exchange is attempted, whatever the other parameters are. *)
Lemma retrieveTokens_unknown_state callbackUrl st :
  let params := callbackParams openIdClient callbackUrl in
  js_get (openIdStore st) (js_string (state params)) = Undefined →
  _retrieveTokens callbackUrl st
  = (Finished (Throw (Error ("Can not decode response for State "
                             +:+ js_string (state params)
                             +:+ ". Please reload start page and try again!"))),
     st).
Proof. intros params Hget. unfold _retrieveTokens. fold params. by rewrite Hget. Qed.

(** So is a state that is neither stored nor inherited. *)
Lemma retrieveTokens_absent_state callbackUrl st s :
  let params := callbackParams openIdClient callbackUrl in
  state params = Some s →
  own (openIdStore st) !! s = None → proto (openIdStore st) = None →
  s ∉ Object_prototype → s ≠ "__proto__" →
  (_retrieveTokens callbackUrl st).1
  = Finished (Throw (Error ("Can not decode response for State " +:+ s
                            +:+ ". Please reload start page and try again!"))).
Proof.
  intros params Hs Hown Hproto Hin Hk.
  rewrite retrieveTokens_unknown_state; fold params; rewrite Hs; cbn; [done|].
  by apply js_get_absent.
Qed.

(** A state that names a property of [Object.prototype] passes the check
    of the store although nothing was stored under it; with a code the
    exchange is started, without a code verifier. *)
Lemma retrieveTokens_inherited_state callbackUrl st s :
  let params := callbackParams openIdClient callbackUrl in
  state params = Some s → s ∈ Object_prototype →
  own (openIdStore st) !! s = None → proto (openIdStore st) = None →
  truthy (code params) = true →
  _retrieveTokens callbackUrl st
  = (Exchanging "daikinunified://login" params
       {| checks_code_verifier := None; checks_state := Some s |}, st).
Proof.
  intros params Hs Hin Hown Hproto Hcode.
  assert (js_get (openIdStore st) s = Builtin s) as Hget.
  { unfold js_get, inherited. rewrite Hown, Hproto.
    rewrite decide_False, decide_True; [done..|].
    intros ->. by apply proto_key_not_inherited in Hin. }
  unfold _retrieveTokens. fold params. rewrite Hs. cbn [js_string].
  by rewrite Hget, Hcode.
Qed.

(** The handler on a redirect whose exchange ends at once with [c]. *)
Lemma onResponseEnd_finished callbackUrl st c st1 :
  startsWith "daikinunified://" callbackUrl = true →
  _retrieveTokens callbackUrl st = (Finished c, st1) →
  onResponseEnd (Some callbackUrl) st = (None, onResponseEnd_settle c st1).
Proof.
  intros Hscheme Hr. unfold onResponseEnd. cbn [js_string]. rewrite Hscheme, Hr.
  assert (truthy (Some callbackUrl) = true) as ->; [|done].
  destruct callbackUrl; [done|]. cbn. by case_decide.
Qed.

(** C2 (code bug).  A captured terminal redirect whose state passes the
    check of the store and which carries neither a code nor an error.
    [_retrieveTokens] has no branch for it and falls off its end: it gives
    [undefined], without an error and without touching the session.  The
    handler takes this for a success: it logs the success line and resolves
    an active rendezvous with [undefined], so the waiting caller is handed
    [undefined] where a token set is promised, and the slot is emptied. *)
Theorem redirect_without_code_or_error_resolves_undefined callbackUrl st :
  let params := callbackParams openIdClient callbackUrl in
  startsWith "daikinunified://" callbackUrl = true →
  jsval_truthy (js_get (openIdStore st) (js_string (state params))) = true →
  truthy (code params) = false →
  truthy (error params) = false →
  let r := onResponseEnd (Some callbackUrl) st in
  _retrieveTokens callbackUrl st = (Finished (Return VUndefined), st)
  ∧ r = (None, deliver (Fulfilled VUndefined)
                 (log_line "Daikin-Cloud: Token detection SUCCESS" st))
  ∧ resultPromise r.2 = None
  ∧ ∀ p, resultPromise st = Some p → promises st !! p = Some Pending →
         promises r.2 !! p = Some (Fulfilled VUndefined).
Proof.
  intros params Hscheme Hstate Hcode Herror r.
  assert (_retrieveTokens callbackUrl st = (Finished (Return VUndefined), st)) as Hr.
  { unfold _retrieveTokens. fold params. by rewrite Hstate, Hcode, Herror. }
  assert (r = (None, deliver (Fulfilled VUndefined)
                       (log_line "Daikin-Cloud: Token detection SUCCESS" st))) as ->
    by (subst r; by rewrite (onResponseEnd_finished _ _ _ _ Hscheme Hr)).
  repeat split; [done | by simpl_session |].
  intros p Hslot Hp. simpl_session. rewrite Hslot. by apply settle_pending.
Qed.

(** C8 (as amended).  A captured terminal redirect whose state passes the
    check of the store, without a code and with a non-empty error [e]: the
    exchange throws an [Error] whose message is [e], a colon and the error
    description (the text [undefined] when there is none); the handler
    rejects an active rendezvous with that error and empties the slot. *)
Theorem redirect_with_error_rejects callbackUrl st e :
  let params := callbackParams openIdClient callbackUrl in
  startsWith "daikinunified://" callbackUrl = true →
  jsval_truthy (js_get (openIdStore st) (js_string (state params))) = true →
  truthy (code params) = false →
  error params = Some e → e ≠ "" →
  let err := Error (e +:+ ": " +:+ js_string (error_description params)) in
  let r := onResponseEnd (Some callbackUrl) st in
  (_retrieveTokens callbackUrl st).1 = Finished (Throw err)
  ∧ (∀ d, error_description params = Some d →
          err_message err = e +:+ ": " +:+ d)
  ∧ r.1 = None
  ∧ resultPromise r.2 = None
  ∧ ∀ p, resultPromise st = Some p → promises st !! p = Some Pending →
         promises r.2 !! p = Some (Rejected err).
Proof.
  intros params Hscheme Hstate Hcode Herror He err r.
  assert (_retrieveTokens callbackUrl st
          = (Finished (Throw err),
             log_line ("Daikin-Cloud: ERROR: " +:+ JSON_stringify params) st)) as Hr.
  { unfold _retrieveTokens. fold params. rewrite Hstate, Hcode, Herror. cbn.
    by rewrite decide_False. }
  subst r. rewrite (onResponseEnd_finished _ _ _ _ Hscheme Hr), Hr.
  repeat split.
  - intros d Hd. subst err. cbn. by rewrite Hd.
  - by simpl_session.
  - intros p Hslot Hp. simpl_session. rewrite Hslot. by apply settle_pending.
Qed.

(** ** The PKCE flow generator *)

Local Abbreviation _generateInitialUrl :=
  (_generateInitialUrl openIdClient codeChallenge).

(** C7.  The login URL is the authorization URL for the fixed scopes, the
    drawn state, the method [S256] and a challenge; the store, read at the
    state of the URL, gives an entry whose code verifier is the drawn one,
    and the challenge is the transform of that verifier.  The entry is
    written as a side effect and nothing else in the session changes: the
    own properties of the store gain the state (any state but
    ["__proto__"], which sets the prototype instead). *)
Theorem generateInitialUrl_challenge_of_stored_verifier codeVerifier state st :
  let r := _generateInitialUrl codeVerifier state st in
  ∃ a v,
    r.1 = authorizationUrl openIdClient a
    ∧ scopes a = "email,openid,profile"
    ∧ auth_state a = state
    ∧ code_challenge_method a = "S256"
    ∧ js_get (openIdStore r.2) (auth_state a) = Entry v
    ∧ v = codeVerifier
    ∧ code_challenge a = codeChallenge v
    ∧ r.2 = set_openIdStore (js_set (openIdStore st) state codeVerifier) st
    ∧ (state ≠ "__proto__" →
       own (openIdStore r.2) = <[state := codeVerifier]> (own (openIdStore st))).
Proof.
  intros r. eexists _, codeVerifier. subst r. cbn.
  repeat split; [apply js_get_set|].
  intros Hs. unfold js_set. by rewrite decide_False.
Qed.

(** ** The error handler of the adapter *)

(** C9.  An error handed to the error handler.  The handler returns
    normally and touches nothing but the log.  With the code [ECONNRESET]
    or [ERR_SSL_UNSUPPORTED_PROTOCOL] the session is left as it is, so
    nothing reaches the logger.  With any other code and a logger, two
    lines are logged, the first one naming the URL of the failing request
    (empty when the engine gives no request) and the error. *)
Theorem onError_suppresses_noise_and_logs_the_rest ctx e st :
  let r := onError ctx (Some e) st in
  let failing := match ctx with
                 | Some {| clientToProxyRequest := Some req |} => url req
                 | _ => ""
                 end in
  r.1 = Return ()
  ∧ proxyServer r.2 = proxyServer st
  ∧ staticServer r.2 = staticServer st
  ∧ rendezvous r.2 = rendezvous st
  ∧ (err_code e = Some "ECONNRESET"
     ∨ err_code e = Some "ERR_SSL_UNSUPPORTED_PROTOCOL" → r.2 = st)
  ∧ (err_code e ≠ Some "ECONNRESET" →
     err_code e ≠ Some "ERR_SSL_UNSUPPORTED_PROTOCOL" →
     logger (options st) = true →
     log r.2 = (log st ++
                [ "Daikin-Cloud: SSL-Proxy ERROR for " +:+ failing +:+ " : "
                  +:+ error_toString e;
                  js_string (err_code e) +:+ ": " +:+ err_stack e ])%list).
Proof.
  intros r failing.
  destruct (onError_fields ctx (Some e) st) as (Hp & Hs & Hr & _).
  subst r. repeat split; try done.
  - unfold onError. by case_match.
  - intros [Hc|Hc]; unfold onError; rewrite Hc; cbn; [done|].
    by rewrite orb_true_r.
  - intros Hc1 Hc2 Hlog. unfold onError.
    rewrite !bool_decide_eq_false_2 by done. cbn [orb snd].
    rewrite !log_log_line by by rewrite ?options_log_line.
    by rewrite <- app_assoc.
Qed.

End Properties.

(** * The class on explicit inputs *)

(** The events that lead a new session to [demo_running]. *)
Example demo_running_is_a_run :
  demo_running
  = run demo_client demo_codeChallenge demo_stringify demo_session
      (start_events demo_network ++ [CallWait]).
Proof. by vm_compute. Qed.

(** C6 (code bug).  A redirect whose state is ["constructor"], a name every
    object inherits, on a session whose store holds no entry at all: the
    check of the store passes, no error is thrown, and the exchange with the
    provider is started with no code verifier. *)
Theorem retrieveTokens_inherited_state_starts_exchange opts :
  let callbackUrl := "daikinunified://login?code=abc&state=constructor" in
  let params := callbackParams demo_client callbackUrl in
  let st := constructor opts in
  own (openIdStore st) = ∅
  ∧ state params = Some "constructor"
  ∧ _retrieveTokens demo_client demo_stringify callbackUrl st
    = (Exchanging "daikinunified://login" params
         {| checks_code_verifier := None; checks_state := Some "constructor" |},
       st)
  ∧ onResponseEnd demo_client demo_stringify (Some callbackUrl) st
    = (Some ("daikinunified://login", params,
             {| checks_code_verifier := None; checks_state := Some "constructor" |}),
       st).
Proof.
  intros callbackUrl params st.
  assert (_retrieveTokens demo_client demo_stringify callbackUrl st
          = (Exchanging "daikinunified://login" params
               {| checks_code_verifier := None;
                  checks_state := Some "constructor" |}, st)) as Hr.
  { apply retrieveTokens_inherited_state; try done.
    by apply (bool_decide_unpack (_ ∈ _)). }
  repeat split; try done.
Qed.

(** On the running session, where promise [0] is the active rendezvous and
    state ["state-1"] is stored, the redirect below carries neither code nor
    error; after the handler the rendezvous is not pending any more: it is
    resolved with [undefined]. *)
Example redirect_without_code_or_error_on_running_session :
  let callbackUrl := "daikinunified://login?state=state-1" in
  let params := callbackParams demo_client callbackUrl in
  let r := onResponseEnd demo_client demo_stringify (Some callbackUrl) demo_running in
  own (openIdStore demo_running) !! "state-1" = Some "verifier-1"
  ∧ state params = Some "state-1" ∧ code params = None ∧ error params = None
  ∧ resultPromise demo_running = Some 0%nat
  ∧ promises demo_running !! 0%nat = Some Pending
  ∧ promises r.2 !! 0%nat = Some (Fulfilled VUndefined)
  ∧ promises r.2 !! 0%nat ≠ Some Pending.
Proof. by vm_compute. Qed.

Lemma redirect_without_code_or_error_witness :
  let callbackUrl := "daikinunified://login?state=state-1" in
  let r := onResponseEnd demo_client demo_stringify (Some callbackUrl) demo_running in
  _retrieveTokens demo_client demo_stringify callbackUrl demo_running
  = (Finished (Return VUndefined), demo_running)
  ∧ r = (None, deliver (Fulfilled VUndefined)
                 (log_line "Daikin-Cloud: Token detection SUCCESS" demo_running))
  ∧ resultPromise r.2 = None
  ∧ promises r.2 !! 0%nat = Some (Fulfilled VUndefined).
Proof.
  intros callbackUrl r.
  destruct (redirect_without_code_or_error_resolves_undefined
              demo_client demo_stringify callbackUrl demo_running
              eq_refl eq_refl eq_refl eq_refl)
    as (Hretrieve & Hr & Hslot & Hp).
  exact (conj Hretrieve (conj Hr (conj Hslot (Hp 0%nat eq_refl eq_refl)))).
Defined.

(** C8, the claim as first stated, fails.  On the running session the
    redirect below has a known state, no code, and an error parameter that
    is present and empty: nothing is thrown, and the rendezvous is resolved
    with [undefined], not rejected. *)
Lemma redirect_with_error_counterexample :
  let callbackUrl := "daikinunified://login?state=state-1&error=" in
  let params := callbackParams demo_client callbackUrl in
  let r := onResponseEnd demo_client demo_stringify (Some callbackUrl) demo_running in
  own (openIdStore demo_running) !! "state-1" = Some "verifier-1"
  ∧ state params = Some "state-1" ∧ code params = None ∧ error params = Some ""
  ∧ (_retrieveTokens demo_client demo_stringify callbackUrl demo_running).1
    = Finished (Return VUndefined)
  ∧ promises demo_running !! 0%nat = Some Pending
  ∧ promises r.2 !! 0%nat = Some (Fulfilled VUndefined).
Proof. by vm_compute. Qed.

Lemma redirect_with_error_witness :
  let callbackUrl :=
    "daikinunified://login?state=state-1&error=access_denied&error_description=user cancelled" in
  let err := Error "access_denied: user cancelled" in
  let r := onResponseEnd demo_client demo_stringify (Some callbackUrl) demo_running in
  (_retrieveTokens demo_client demo_stringify callbackUrl demo_running).1
  = Finished (Throw err)
  ∧ resultPromise r.2 = None
  ∧ promises r.2 !! 0%nat = Some (Rejected err).
Proof.
  intros callbackUrl err r.
  assert ("access_denied" ≠ "") as Hne by done.
  destruct (redirect_with_error_rejects demo_client demo_stringify
              callbackUrl demo_running "access_denied"
              eq_refl eq_refl eq_refl eq_refl Hne)
    as (Hthrow & _ & _ & Hslot & Hp).
  exact (conj Hthrow (conj Hslot (Hp 0%nat eq_refl eq_refl))).
Defined.

Lemma delivery_settles_active_rendezvous_once_witness :
  let st := run demo_client demo_codeChallenge demo_stringify
              (constructor (Some demo_options)) [CallWait] in
  let st' := onResponseEnd_settle (Throw (Error "denied")) st in
  resultPromise st' = None
  ∧ promises st' !! 0%nat = Some (Rejected (Error "denied"))
  ∧ rendezvous (onResponseEnd_settle (Return VUndefined) st') = rendezvous st'.
Proof.
  destruct (delivery_settles_active_rendezvous_once
              demo_client demo_codeChallenge demo_stringify
              (Some demo_options) [CallWait] (Throw (Error "denied"))
              (Return VUndefined) [])
    as (Hslot & Hp & Hagain).
  exact (conj Hslot (conj (proj1 (proj2 Hp)) Hagain)).
Defined.

Lemma startServer_discards_old_rendezvous_witness :
  let st := run demo_client demo_codeChallenge demo_stringify
              (constructor (Some demo_options)) [CallWait] in
  let r := startServer_call st in
  r.1 = Return ()
  ∧ resultPromise r.2 = None
  ∧ promises r.2 !! 0%nat
    = Some (Rejected (Error "Proxy Server just started. Discard old process."))
  ∧ promises (run demo_client demo_codeChallenge demo_stringify r.2
                [ProxyListening; StaticListening "v" "s";
                 ExchangeDone (Throw (Error "late"))]) !! 0%nat
    = promises r.2 !! 0%nat.
Proof.
  intros st r.
  destruct (startServer_discards_old_rendezvous
              demo_client demo_codeChallenge demo_stringify
              (Some demo_options) [CallWait] 0%nat
              [ProxyListening; StaticListening "v" "s";
               ExchangeDone (Throw (Error "late"))] eq_refl eq_refl)
    as (Hr & _ & Hslot & Hp & Hlater).
  assert (0 < length (promises st))%nat as Hold by (vm_compute; lia).
  exact (conj Hr (conj Hslot (conj Hp (Hlater 0%nat Hold)))).
Defined.

Lemma generateInitialUrl_challenge_of_stored_verifier_witness :
  let r := _generateInitialUrl demo_client demo_codeChallenge
             "verifier-1" "state-1" demo_session in
  ∃ a v,
    r.1 = authorizationUrl demo_client a
    ∧ code_challenge_method a = "S256"
    ∧ js_get (openIdStore r.2) (auth_state a) = Entry v
    ∧ code_challenge a = demo_codeChallenge v
    ∧ own (openIdStore r.2) = <["state-1" := "verifier-1"]> (own (openIdStore demo_session)).
Proof.
  destruct (generateInitialUrl_challenge_of_stored_verifier
              demo_client demo_codeChallenge "verifier-1" "state-1" demo_session)
    as (a & v & Hurl & _ & _ & Hmethod & Hget & _ & Hchallenge & _ & Hown).
  assert ("state-1" ≠ "__proto__") as Hne by done.
  exists a, v.
  exact (conj Hurl (conj Hmethod (conj Hget (conj Hchallenge (Hown Hne))))).
Defined.

Lemma onError_suppresses_noise_and_logs_the_rest_witness :
  let ctx := Some {| clientToProxyRequest :=
                       Some {| url := "https://daikin.example/login";
                               host := Some "daikin.example" |} |} in
  let reset := {| err_name := "Error"; err_message := "read ECONNRESET";
                  err_code := Some "ECONNRESET";
                  err_stack := "Error: read ECONNRESET" |} in
  (onError ctx (Some reset) demo_running).2 = demo_running
  ∧ log (onError ctx (Some EADDRINUSE) demo_running).2
    = [ "Daikin-Cloud: SSL-Proxy ERROR for https://daikin.example/login : Error: listen EADDRINUSE: address already in use";
        "EADDRINUSE: Error: listen EADDRINUSE: address already in use" ].
Proof.
  intros ctx reset.
  destruct (onError_suppresses_noise_and_logs_the_rest ctx reset demo_running)
    as (_ & _ & _ & _ & Hquiet & _).
  destruct (onError_suppresses_noise_and_logs_the_rest ctx EADDRINUSE demo_running)
    as (_ & _ & _ & _ & _ & Hlog).
  assert (err_code EADDRINUSE ≠ Some "ECONNRESET") as Hc1 by done.
  assert (err_code EADDRINUSE ≠ Some "ERR_SSL_UNSUPPORTED_PROTOCOL") as Hc2 by done.
  assert (logger (options demo_running) = true) as Hlogger
    by (vm_compute; reflexivity).
  split.
  - exact (Hquiet (or_introl eq_refl)).
  - etransitivity; [exact (Hlog Hc1 Hc2 Hlogger)|]. vm_compute. reflexivity.
Defined.

(** * More of the class *)

(** ** Writing to the log *)

Lemma logs_only_refl st : logs_only st st.
Proof. unfold logs_only. split_and!; try done. exists []. by rewrite app_nil_r. Qed.

Lemma logs_only_trans st1 st2 st3 :
  logs_only st1 st2 → logs_only st2 st3 → logs_only st1 st3.
Proof.
  intros (Ho & Hs & Hp & Hst & Hr & Hps & Hf & l & Hl & Hq)
         (Ho' & Hs' & Hp' & Hst' & Hr' & Hps' & Hf' & l' & Hl' & Hq').
  unfold logs_only. split_and!; try congruence.
  exists (l ++ l')%list. split.
  - by rewrite Hl', Hl, app_assoc.
  - intros Hno. rewrite Hq by done. rewrite Hq'; [done|]. by rewrite Ho.
Qed.

Lemma logs_only_log_line l st : logs_only st (log_line l st).
Proof.
  unfold log_line. destruct (logger (options st)) eqn:Hl.
  - unfold logs_only. split_and!; try done. exists [l]. by rewrite Hl.
  - apply logs_only_refl.
Qed.

Lemma logs_only_log_debug l st : logs_only st (log_debug l st).
Proof.
  unfold log_debug, debugging. destruct (logger (options st)) eqn:Hl; cbn.
  - case_bool_decide; [|apply logs_only_refl].
    unfold logs_only. split_and!; try done. exists [l]. by rewrite Hl.
  - apply logs_only_refl.
Qed.

Create HintDb logs.
#[global] Hint Resolve logs_only_refl logs_only_log_line logs_only_log_debug : logs.

(** ** Prefixes and substrings *)

Lemma string_prefix_nil s : String.prefix "" s = true.
Proof. by destruct s. Qed.

Lemma string_prefix_app p rest : String.prefix p (p +:+ rest) = true.
Proof.
  induction p as [|a p IH]; [apply string_prefix_nil|].
  change (String a p +:+ rest) with (String a (p +:+ rest)). cbn.
  by destruct (Ascii.ascii_dec a a).
Qed.

Lemma string_prefix_inv p s : String.prefix p s = true → ∃ rest, s = p +:+ rest.
Proof.
  revert s. induction p as [|a p IH]; intros s.
  - by exists s.
  - destruct s as [|b s]; [done|]. cbn.
    destruct (Ascii.ascii_dec a b) as [->|]; [|done].
    intros [rest ->]%IH. by exists rest.
Qed.

Lemma includes_app needle before after :
  includes needle (before +:+ needle +:+ after) = true.
Proof.
  induction before as [|a before IH].
  - change ("" +:+ needle +:+ after) with (needle +:+ after).
    destruct (needle +:+ after) eqn:Hn; cbn [includes];
      rewrite <- ?Hn, string_prefix_app; done.
  - change (String a before +:+ needle +:+ after)
      with (String a (before +:+ needle +:+ after)).
    cbn [includes]. by rewrite IH, orb_true_r.
Qed.

Lemma includes_skip needle before hay :
  includes needle hay = true → includes needle (before +:+ hay) = true.
Proof.
  intros Hin. induction before as [|a before IH]; [done|].
  change (String a before +:+ hay) with (String a (before +:+ hay)).
  cbn [includes]. by rewrite IH, orb_true_r.
Qed.

Lemma includes_inv needle hay :
  includes needle hay = true → ∃ before after, hay = before +:+ needle +:+ after.
Proof.
  induction hay as [|a hay IH]; cbn [includes].
  - rewrite orb_false_r. intros [rest ->]%string_prefix_inv. by exists "", rest.
  - intros [[rest Hr]%string_prefix_inv | (before & after & ->)%IH]%orb_true_iff.
    + by exists "", rest.
    + by exists (String a before), after.
Qed.

(** ** Reading the store after a write *)

Lemma js_get_entry_inv o s v :
  js_get o s = Entry v →
  (s = "__proto__" ∧ proto o = Some v) ∨ (s ≠ "__proto__" ∧ own o !! s = Some v).
Proof.
  unfold js_get, inherited. repeat case_match; naive_solver.
Qed.

Lemma js_get_set_other o s s' v v' :
  js_get o s = Entry v → s ≠ s' → js_get (js_set o s' v') s = Entry v.
Proof.
  intros [[-> Hp] | [Hs Ho]]%js_get_entry_inv Hne; unfold js_get, js_set.
  - rewrite (decide_False (P := s' = "__proto__")) by done. cbn.
    by rewrite decide_True, Hp.
  - destruct (decide (s' = "__proto__")); cbn; rewrite decide_False by done.
    + by rewrite Ho.
    + by rewrite lookup_insert_ne, Ho.
Qed.

Lemma log_debug_fields l st :
  options (log_debug l st) = options st
  ∧ openIdStore (log_debug l st) = openIdStore st
  ∧ proxyServer (log_debug l st) = proxyServer st
  ∧ staticServer (log_debug l st) = staticServer st
  ∧ resultPromise (log_debug l st) = resultPromise st
  ∧ promises (log_debug l st) = promises st
  ∧ files (log_debug l st) = files st.
Proof. unfold log_debug. by destruct (debugging st). Qed.

Lemma options_log_debug l st : options (log_debug l st) = options st.
Proof. apply log_debug_fields. Qed.
Lemma openIdStore_log_debug l st : openIdStore (log_debug l st) = openIdStore st.
Proof. apply log_debug_fields. Qed.
Lemma proxyServer_log_debug l st : proxyServer (log_debug l st) = proxyServer st.
Proof. apply log_debug_fields. Qed.
Lemma staticServer_log_debug l st : staticServer (log_debug l st) = staticServer st.
Proof. apply log_debug_fields. Qed.
Lemma resultPromise_log_debug l st : resultPromise (log_debug l st) = resultPromise st.
Proof. apply log_debug_fields. Qed.
Lemma promises_log_debug l st : promises (log_debug l st) = promises st.
Proof. apply log_debug_fields. Qed.
Lemma files_log_debug l st : files (log_debug l st) = files st.
Proof. apply log_debug_fields. Qed.
Lemma files_log_line l st : files (log_line l st) = files st.
Proof. unfold log_line. by destruct (logger _). Qed.
Lemma files_deliver s st : files (deliver s st) = files st.
Proof. unfold deliver. by destruct (resultPromise st). Qed.

#[global] Hint Rewrite options_log_debug openIdStore_log_debug proxyServer_log_debug
  staticServer_log_debug resultPromise_log_debug promises_log_debug
  files_log_debug files_log_line files_deliver : session.

Section Coverage.

Variable openIdClient : OpenIdClient.
Variable codeChallenge : string → string.
Variable JSON_stringify : CallbackParams → string.

Local Abbreviation _generateInitialUrl :=
  (_generateInitialUrl openIdClient codeChallenge).
Local Abbreviation _retrieveTokens := (_retrieveTokens openIdClient JSON_stringify).
Local Abbreviation onResponseEnd := (onResponseEnd openIdClient JSON_stringify).
Local Abbreviation startServer := (startServer openIdClient codeChallenge).
Local Abbreviation step := (step openIdClient codeChallenge JSON_stringify).
Local Abbreviation run := (run openIdClient codeChallenge JSON_stringify).

(** ** What the exchanger and the handlers leave alone *)

(** The exchanger only reads the session; at most it logs. *)
Lemma retrieveTokens_logs_only callbackUrl st :
  logs_only st (_retrieveTokens callbackUrl st).2.
Proof. unfold _retrieveTokens. repeat case_match; cbn; auto with logs. Qed.

Lemma retrieveTokens_resume_logs_only r st :
  logs_only st (_retrieveTokens_resume r st).2.
Proof.
  unfold _retrieveTokens_resume. repeat case_match; cbn; auto with logs.
  eapply logs_only_trans; auto with logs.
Qed.

Lemma run_app st evs evs' : run st (evs ++ evs') = run (run st evs) evs'.
Proof. apply foldl_app. Qed.

(** No step changes the options. *)
Lemma step_options st ev : options (step st ev) = options st.
Proof.
  destruct ev; cbn [step].
  - unfold startServer_call. case_match; by simpl_session.
  - unfold stopServer_call, proxyServer_close. simpl_session.
    repeat case_match; by simpl_session.
  - done.
  - unfold proxyServer_listening. by case_match.
  - unfold staticServer_listening, _generateInitialUrl. by case_match.
  - unfold staticServer_error, proxyServer_close. simpl_session.
    repeat case_match; by simpl_session.
  - unfold proxyServer_closed, staticServer_close. simpl_session.
    by case_match.
  - done.
  - by simpl_session.
  - unfold onResponseEnd. case_match; [|done].
    pose proof (retrieveTokens_logs_only (js_string location) st) as (Ho & _).
    destruct (_retrieveTokens _ st) as [[[v|e]|u p k] st1]; simpl_session; done.
  - unfold onResponseEnd_resume.
    pose proof (retrieveTokens_resume_logs_only r st) as (Ho & _).
    destruct (_retrieveTokens_resume r st) as [[v|e] st1]; simpl_session; done.
  - unfold onError. repeat case_match; by simpl_session.
Qed.

Lemma run_options st evs : options (run st evs) = options st.
Proof.
  revert st. induction evs as [|ev evs IH]; intros st; [done|].
  cbn. etransitivity; [apply IH | apply step_options].
Qed.

(** ** What each step does to one field *)

Ltac unfold_callbacks :=
  unfold startServer_call, stopServer_call, proxyServer_listening,
    staticServer_listening, _generateInitialUrl, staticServer_error,
    proxyServer_closed, proxyServer_close, staticServer_close,
    staticServer_closed, onRequest, onError, writeFileSync.

Lemma log_grows_refl st st' : log st' = log st → log_grows st st'.
Proof. intros Hl. exists []. by rewrite app_nil_r. Qed.

Lemma log_grows_trans st1 st2 st3 :
  options st2 = options st1 →
  log_grows st1 st2 → log_grows st2 st3 → log_grows st1 st3.
Proof.
  intros Ho (l & Hl & Hq) (l' & Hl' & Hq').
  exists (l ++ l')%list. split.
  - by rewrite Hl', Hl, app_assoc.
  - intros Hno. rewrite Hq by done. rewrite Hq'; [done|]. by rewrite Ho.
Qed.

Lemma logs_only_log_grows st st' : logs_only st st' → log_grows st st'.
Proof. by intros (_ & _ & _ & _ & _ & _ & _ & Hl). Qed.

Lemma log_grows_log_line st st1 l :
  options st1 = options st → log_grows st st1 → log_grows st (log_line l st1).
Proof.
  intros Ho Hg. eapply log_grows_trans; [done..|].
  apply logs_only_log_grows, logs_only_log_line.
Qed.

Lemma onResponseEnd_settle_log_grows c st st1 :
  options st1 = options st → log_grows st st1 →
  log_grows st (onResponseEnd_settle c st1).
Proof.
  intros Ho Hg. eapply log_grows_trans; [done..|].
  destruct c; cbn.
  - eapply log_grows_trans; [| apply logs_only_log_grows, logs_only_log_line |].
    + by simpl_session.
    + apply log_grows_refl. by simpl_session.
  - apply log_grows_refl. by simpl_session.
Qed.

(** Every step only adds to the log, and adds nothing without a logger. *)
Lemma step_log_grows st ev : log_grows st (step st ev).
Proof.
  destruct ev; cbn [step]; unfold_callbacks.
  - case_match; apply log_grows_refl; by simpl_session.
  - simpl_session. repeat case_match; apply log_grows_refl; by simpl_session.
  - by apply log_grows_refl.
  - case_match; by apply log_grows_refl.
  - case_match; by apply log_grows_refl.
  - simpl_session. 
    assert (log_grows st
              (log_line (err_stack err)
                 (log_line ("SSL-Proxy could not be started: " +:+ error_toString err) st)))
      as (l & Hl & Hq).
    { apply log_grows_log_line; [by simpl_session|].
      apply logs_only_log_grows, logs_only_log_line. }
    exists l. split; [|done]. repeat case_match; by simpl_session.
  - simpl_session. case_match; by apply log_grows_refl.
  - by apply log_grows_refl.
  - cbn. apply logs_only_log_grows, logs_only_log_debug.
  - unfold onResponseEnd. case_match; [|by apply log_grows_refl].
    pose proof (retrieveTokens_logs_only (js_string location) st) as Hr.
    destruct (_retrieveTokens _ st) as [[c|u p k] st1]; cbn in *.
    + apply onResponseEnd_settle_log_grows; [apply Hr|].
      by apply logs_only_log_grows.
    + by apply logs_only_log_grows.
  - unfold onResponseEnd_resume.
    pose proof (retrieveTokens_resume_logs_only r st) as Hr.
    destruct (_retrieveTokens_resume r st) as [c st1]; cbn in *.
    apply onResponseEnd_settle_log_grows; [apply Hr|].
    by apply logs_only_log_grows.
  - repeat case_match; cbn; try by apply log_grows_refl.
    all: apply log_grows_log_line; [by simpl_session|].
    all: apply logs_only_log_grows, logs_only_log_line.
Qed.

(** Only the callback of the [listen] of the static server writes to the
    store and to the files. *)
Lemma step_openIdStore st ev :
  openIdStore (step st ev) =
  match ev with
  | StaticListening v s => js_set (openIdStore st) s v
  | _ => openIdStore st
  end.
Proof.
  destruct ev; cbn [step]; unfold_callbacks; simpl_session;
    try by repeat case_match; simpl_session.
  - unfold onResponseEnd. case_match; [|done].
    pose proof (retrieveTokens_logs_only (js_string location) st) as (_ & Hs & _).
    destruct (_retrieveTokens _ st) as [[[v|e]|u p k] st1]; by simpl_session.
  - unfold onResponseEnd_resume.
    pose proof (retrieveTokens_resume_logs_only r st) as (_ & Hs & _).
    destruct (_retrieveTokens_resume r st) as [[v|e] st1]; by simpl_session.
Qed.

Lemma step_files st ev :
  files (step st ev) =
  match ev with
  | StaticListening v s =>
      (files st ++
       pages (proxyDataDir (options st))
         (authorizationUrl openIdClient
            {| scopes := "email,openid,profile"; auth_state := s;
               code_challenge := codeChallenge v;
               code_challenge_method := "S256" |}))%list
  | _ => files st
  end.
Proof.
  destruct ev; cbn [step]; unfold_callbacks; simpl_session;
    try by repeat case_match; simpl_session.
  - case_match; cbn; by rewrite <- app_assoc.
  - unfold onResponseEnd. case_match; [|done].
    pose proof (retrieveTokens_logs_only (js_string location) st)
      as (_ & _ & _ & _ & _ & _ & Hf & _).
    destruct (_retrieveTokens _ st) as [[[v|e]|u p k] st1]; by simpl_session.
  - unfold onResponseEnd_resume.
    pose proof (retrieveTokens_resume_logs_only r st)
      as (_ & _ & _ & _ & _ & _ & Hf & _).
    destruct (_retrieveTokens_resume r st) as [[v|e] st1]; by simpl_session.
Qed.

(** The proxy slot is emptied by the callback of its [close] and by nothing
    else. *)
Lemma step_proxyServer st ev :
  is_ProxyClosed ev = false → is_Some (proxyServer st) →
  is_Some (proxyServer (step st ev)).
Proof.
  intros Hev [l Hl].
  destruct ev; try done; cbn [step]; unfold_callbacks; simpl_session;
    rewrite ?Hl; simpl_session; try by eexists.
  all: try (repeat case_match; simpl_session; rewrite ?Hl; by eexists).
  - unfold onResponseEnd. case_match; [|by eexists].
    pose proof (retrieveTokens_logs_only (js_string location) st) as (_ & _ & Hp & _).
    destruct (_retrieveTokens _ st) as [[[v|e]|u p k] st1]; cbn in *;
      simpl_session; rewrite Hp, Hl; by eexists.
  - unfold onResponseEnd_resume.
    pose proof (retrieveTokens_resume_logs_only r st) as (_ & _ & Hp & _).
    destruct (_retrieveTokens_resume r st) as [[v|e] st1]; cbn in *;
      simpl_session; rewrite Hp, Hl; by eexists.
Qed.

(** ** The constructor and the options *)

(** X1.  The options are fixed by the constructor and no call or callback
    changes them afterwards.  They are the ones given (the defaults when
    none are given), but for the log level, which is always a non-empty
    string: the one given, or ["info"] when it is missing or empty. *)
Theorem options_fixed_at_construction opts evs :
  let given := default defaultOptions opts in
  let o := options (run (constructor opts) evs) in
  proxyOwnIp o = proxyOwnIp given
  ∧ proxyListenBind o = proxyListenBind given
  ∧ proxyPort o = proxyPort given
  ∧ proxyWebPort o = proxyWebPort given
  ∧ proxyDataDir o = proxyDataDir given
  ∧ logger o = logger given
  ∧ logLevel o = (if truthy (logLevel given) then logLevel given else Some "info")
  ∧ truthy (logLevel o) = true.
Proof.
  intros given o. subst o. rewrite run_options. subst given.
  unfold constructor. cbn [options].
  destruct (truthy (logLevel (default defaultOptions opts))) eqn:Ht; by cbn.
Qed.

(** ** The log *)

(** X2.  Over any events the log only grows at its end, and without a
    logger it does not change at all. *)
Theorem log_is_append_only_and_silent_without_logger st evs :
  ∃ lines, log (run st evs) = (log st ++ lines)%list
           ∧ (logger (options st) = false → lines = []).
Proof.
  revert st. induction evs as [|ev evs IH]; intros st.
  - exists []. by rewrite app_nil_r.
  - cbn [foldl]. eapply log_grows_trans; [| apply step_log_grows | apply IH].
    apply step_options.
Qed.

(** ** The promises *)

(** X4.  The session only ever settles the promise in its slot: a promise
    that exists and is not in the slot is never changed again, whatever
    events follow. *)
Theorem only_the_slot_promise_changes st evs q :
  (q < length (promises st))%nat → resultPromise st ≠ Some q →
  promises (run st evs) !! q = promises st !! q.
Proof.
  revert st. induction evs as [|ev evs IH]; intros st Hq Hslot; [done|].
  cbn [foldl].
  assert ((q < length (promises (step st ev)))%nat
          ∧ resultPromise (step st ev) ≠ Some q
          ∧ promises (step st ev) !! q = promises st !! q) as (Hq' & Hslot' & <-).
  { destruct (step_move openIdClient codeChallenge JSON_stringify st ev)
      as [Hm | s Hm | Hm]; injection Hm as -> ->.
    - done.
    - rewrite deliver_slot, deliver_length, deliver_promises.
      split_and!; [done..|]. destruct (resultPromise st) as [p|]; [|done].
      apply settle_other. congruence.
    - cbn. rewrite length_app. cbn. split_and!; [lia | |].
      + intros [= <-]. lia.
      + by apply lookup_app_l. }
  by apply IH.
Qed.

(** ** Starting and stopping *)

(** X5.  While the proxy slot is taken [startServer] throws and leaves the
    session as it is; the slot stays taken over any events until the
    callback of the [close] of the proxy has run, so also between a call of
    [stopServer] and that callback. *)
Theorem startServer_throws_until_proxy_closed net st evs :
  is_Some (proxyServer st) →
  Forall (λ ev, is_ProxyClosed ev = false) evs →
  startServer net (run st evs)
  = (Throw (Error "Proxy Server already started. Please stop before starting again."),
     run st evs).
Proof.
  intros Hp Hevs.
  assert (is_Some (proxyServer (run st evs))) as [l Hl].
  { revert st Hp. induction Hevs as [|ev evs Hev _ IH]; intros st Hp; [done|].
    cbn [foldl]. apply IH. by apply step_proxyServer. }
  unfold startServer, startServer_call. by rewrite Hl.
Qed.

(** X6.  A start on a network where both listeners bind: the promise is
    resolved with [true], both listeners are up, the two pages are written
    under [certs] in the data directory, the instructions page contains the
    login URL, the store gives the drawn verifier at the drawn state, and
    nothing is logged. *)
Theorem startServer_success_publishes_login_page net st :
  proxyServer st = None → proxy_bind net = None → static_bind net = None →
  let r := startServer net st in
  let startLink :=
    authorizationUrl openIdClient
      {| scopes := "email,openid,profile"; auth_state := drawn_state net;
         code_challenge := codeChallenge (drawn_codeVerifier net);
         code_challenge_method := "S256" |} in
  r.1 = Return (Fulfilled VTrue)
  ∧ proxyServer r.2 = Some Listening
  ∧ staticServer r.2 = Some Listening
  ∧ files r.2 = (files st ++ pages (proxyDataDir (options st)) startLink)%list
  ∧ includes startLink (indexFile startLink) = true
  ∧ js_get (openIdStore r.2) (drawn_state net) = Entry (drawn_codeVerifier net)
  ∧ log r.2 = log st
  ∧ resultPromise r.2 = None.
Proof.
  intros Hp Hproxy Hstatic r startLink. subst r. unfold startServer.
  rewrite (startServer_call_stopped st Hp), Hproxy, Hstatic. simpl_session.
  split_and!; try done.
  - by rewrite <- app_assoc.
  - unfold indexFile. do 10 apply includes_skip.
    apply (includes_app startLink "").
  - apply js_get_set.
Qed.

(** X7.  A start on which the proxy binds and the static server does not:
    the handler of the error logs it and closes the proxy, and there it
    ends, for the callback given to [close] is never run.  The promise of
    [startServer] is never settled, both objects stay in their slots, no
    login URL is made (the store and the files are untouched), and a
    following [startServer] throws. *)
Theorem startServer_static_bind_failure_leaves_session net st e net' :
  proxyServer st = None → proxy_bind net = None → static_bind net = Some e →
  let r := startServer net st in
  r.1 = Return Pending
  ∧ proxyServer r.2 = Some Closing
  ∧ staticServer r.2 = Some Binding
  ∧ openIdStore r.2 = openIdStore st
  ∧ files r.2 = files st
  ∧ (logger (options st) = true →
     log r.2 = (log st ++ [ "SSL-Proxy could not be started: " +:+ error_toString e;
                            err_stack e ])%list)
  ∧ (startServer net' r.2).1
    = Throw (Error "Proxy Server already started. Please stop before starting again.").
Proof.
  intros Hp Hproxy Hstatic r.
  destruct (startServer_static_bind_fails openIdClient codeChallenge net st e)
    as (Hr & Hpr & Hst); [done..|].
  assert (openIdStore r.2 = openIdStore st ∧ files r.2 = files st
          ∧ (logger (options st) = true →
             log r.2 = (log st ++ [ "SSL-Proxy could not be started: "
                                    +:+ error_toString e;
                                    err_stack e ])%list))
    as (Hstore & Hfiles & Hlog).
  { subst r. unfold startServer.
    rewrite (startServer_call_stopped st Hp), Hproxy, Hstatic.
    unfold proxyServer_listening. simpl_session.
    unfold staticServer_error, proxyServer_close. simpl_session.
    split_and!; try reflexivity.
    intros Hl. rewrite !log_log_line by by simpl_session.
    simpl_session. by rewrite <- app_assoc. }
  split_and!; try done.
  subst r. by rewrite (startServer_running openIdClient codeChallenge net' _ Closing).
Qed.

(** ** The store *)

(** X9.  A stored authorization is never deleted and never used up: a state
    that reads as an entry keeps its code verifier over any events that do
    not draw the same state again (redirects, exchanges, stops, starts with
    other states). *)
Theorem stored_state_survives st evs s v :
  js_get (openIdStore st) s = Entry v →
  Forall (λ ev, draws s ev = false) evs →
  js_get (openIdStore (run st evs)) s = Entry v.
Proof.
  intros Hget Hevs. revert st Hget.
  induction Hevs as [|ev evs Hev _ IH]; intros st Hget; [done|].
  cbn [foldl]. apply IH. rewrite step_openIdStore.
  destruct ev; try done. cbn in Hev. case_bool_decide; [done|].
  by apply js_get_set_other.
Qed.

(** ** From the login URL to the token set *)

(** X10.  The store round trip: once a login URL is made for a state, a
    redirect with that state and a code passes the check and starts the
    exchange for the fixed redirect URI, with the verifier drawn for that
    URL and the state as checks; the session itself is not changed, and the
    rendezvous is left waiting. *)
Theorem redirect_for_generated_state_starts_exchange codeVerifier s st callbackUrl :
  let params := callbackParams openIdClient callbackUrl in
  let st1 := (_generateInitialUrl codeVerifier s st).2 in
  state params = Some s → truthy (code params) = true →
  startsWith "daikinunified://" callbackUrl = true →
  onResponseEnd (Some callbackUrl) st1
  = (Some ("daikinunified://login", params,
           {| checks_code_verifier := Some codeVerifier;
              checks_state := Some s |}),
     st1).
Proof.
  intros params st1 Hs Hcode Hscheme.
  assert (_retrieveTokens callbackUrl st1
          = (Exchanging "daikinunified://login" params
               {| checks_code_verifier := Some codeVerifier;
                  checks_state := Some s |}, st1)) as Hr.
  { unfold _retrieveTokens. fold params. rewrite Hs. subst st1. cbn.
    by rewrite js_get_set, Hcode. }
  unfold onResponseEnd. cbn [js_string]. rewrite Hscheme, Hr.
  assert (truthy (Some callbackUrl) = true) as ->; [|done].
  destruct callbackUrl; [done|]. cbn. by case_decide.
Qed.

(** X11.  A response is looked at only when it has a [location] header that
    begins with the scheme of the app: without the header, or with any
    other location, the handler does nothing at all. *)
Theorem response_without_app_redirect_is_ignored location st :
  (∀ rest, location ≠ Some ("daikinunified://" +:+ rest)) →
  onResponseEnd location st = (None, st).
Proof.
  intros Hloc. unfold onResponseEnd.
  destruct location as [l|]; [|done]. cbn [js_string].
  destruct (startsWith "daikinunified://" l) eqn:Hscheme.
  - apply string_prefix_inv in Hscheme as [rest ->]. by destruct (Hloc rest).
  - by rewrite andb_false_r.
Qed.

(** X12.  The handler given to [onRequest] asks for the inspection of the
    response exactly when the [host] header contains ["daikin"]; it changes
    nothing but the log, and logs (the URL of the request) only with a
    logger at level [debug]. *)
Theorem onRequest_inspects_daikin_hosts req st :
  let r := onRequest req st in
  (r.1 = true ↔ ∃ before after, host req = Some (before +:+ "daikin" +:+ after))
  ∧ logs_only st r.2
  ∧ log r.2 = (if debugging st then log st ++ [url req] else log st)%list.
Proof.
  intros r. subst r. unfold onRequest. cbn [fst snd]. split_and!.
  - split.
    + intros [Ht Hin]%andb_true_iff. destruct (host req) as [h|]; [|done].
      cbn in Hin. apply includes_inv in Hin as (before & after & ->). eauto.
    + intros (before & after & ->). cbn [js_string].
      rewrite includes_app, andb_true_r. cbn.
      case_decide as Hempty; [|done].
      by destruct before.
  - apply logs_only_log_debug.
  - unfold log_debug. by destruct (debugging st).
Qed.

(** The handler resumed with the answer of the provider, with a rendezvous
    waiting. *)
Lemma onResponseEnd_resume_token_set st p tokenSet :
  resultPromise st = Some p → promises st !! p = Some Pending →
  debugging st = false ∨ is_Some (ts_claims tokenSet) →
  promises (onResponseEnd_resume (Return tokenSet) st) !! p
  = Some (Fulfilled (VTokenSet tokenSet)).
Proof.
  intros Hslot Hp Hdebug.
  assert (∃ st1, _retrieveTokens_resume (Return tokenSet) st
                 = (Return (VTokenSet tokenSet), st1)) as [st1 Hr].
  { unfold _retrieveTokens_resume.
    destruct Hdebug as [Hoff | [claims Hclaims]].
    - assert (log_debug ("Daikin-Cloud: received and validated tokens: "
                         +:+ ts_json tokenSet) st = st) as ->
        by (unfold log_debug; by rewrite Hoff).
      rewrite Hoff. by eexists.
    - rewrite Hclaims. case_match; by eexists. }
  pose proof (retrieveTokens_resume_logs_only (Return tokenSet) st)
    as (_ & _ & _ & _ & Hr1 & Hr2 & _).
  unfold onResponseEnd_resume. rewrite Hr in *. cbn in *. simpl_session.
  rewrite Hr1, Hr2, Hslot. by apply settle_pending.
Qed.

Lemma onResponseEnd_resume_error st p e :
  resultPromise st = Some p → promises st !! p = Some Pending →
  promises (onResponseEnd_resume (Throw e) st) !! p = Some (Rejected e).
Proof.
  intros Hslot Hp. cbn. simpl_session. rewrite Hslot. by apply settle_pending.
Qed.

Lemma onResponseEnd_resume_slot r st :
  resultPromise (onResponseEnd_resume r st) = None.
Proof.
  unfold onResponseEnd_resume.
  destruct (_retrieveTokens_resume r st) as [[v|e] st1]; cbn; apply deliver_slot.
Qed.

(** X13.  A whole login.  On a new session: the servers are started on a
    network where both listeners bind, a caller waits, and a redirect comes
    with the state drawn for the login URL and a code.  The exchange is then
    started with the drawn verifier and the caller still waits.  When the
    provider answers with a token set (and the claims of the set can be
    read, or debugging is off), the promise of the caller is resolved with
    that token set; when it answers with an error, the promise is rejected
    with that error.  In both cases the slot is emptied. *)
Theorem login_round_trip opts net callbackUrl tokenSet e :
  let params := callbackParams openIdClient callbackUrl in
  let st1 := (startServer net (constructor opts)).2 in
  let w := waitForTokenResponse st1 in
  let h := onResponseEnd (Some callbackUrl) w.2 in
  let ok := onResponseEnd_resume (Return tokenSet) h.2 in
  let ko := onResponseEnd_resume (Throw e) h.2 in
  proxy_bind net = None → static_bind net = None →
  startsWith "daikinunified://" callbackUrl = true →
  state params = Some (drawn_state net) → truthy (code params) = true →
  debugging (constructor opts) = false ∨ is_Some (ts_claims tokenSet) →
  h.1 = Some ("daikinunified://login", params,
              {| checks_code_verifier := Some (drawn_codeVerifier net);
                 checks_state := Some (drawn_state net) |})
  ∧ promises h.2 !! w.1 = Some Pending
  ∧ promises ok !! w.1 = Some (Fulfilled (VTokenSet tokenSet))
  ∧ resultPromise ok = None
  ∧ promises ko !! w.1 = Some (Rejected e)
  ∧ resultPromise ko = None.
Proof.
  intros params st1 w h ok ko Hproxy Hstatic Hscheme Hs Hcode Hdebug.
  destruct (startServer_success_publishes_login_page net (constructor opts))
    as (_ & _ & _ & _ & _ & Hget & _ & _); [done..|]. fold st1 in Hget.
  assert (options st1 = options (constructor opts)) as Ho.
  { subst st1.
    rewrite (startServer_run openIdClient codeChallenge JSON_stringify) by done.
    apply run_options. }
  assert (_retrieveTokens callbackUrl w.2
          = (Exchanging "daikinunified://login" params
               {| checks_code_verifier := Some (drawn_codeVerifier net);
                  checks_state := Some (drawn_state net) |}, w.2)) as Hr.
  { unfold _retrieveTokens. fold params. rewrite Hs. subst w. cbn.
    by rewrite Hget, Hcode. }
  assert (h = (Some ("daikinunified://login", params,
                     {| checks_code_verifier := Some (drawn_codeVerifier net);
                        checks_state := Some (drawn_state net) |}), w.2)) as ->.
  { subst h. unfold onResponseEnd. cbn [js_string]. rewrite Hscheme, Hr.
    assert (truthy (Some callbackUrl) = true) as ->; [|done].
    destruct callbackUrl; [done|]. cbn. by case_decide. }
  assert (promises w.2 !! w.1 = Some Pending) as Hp
    by (subst w; cbn; by rewrite lookup_app_r, Nat.sub_diag).
  assert (resultPromise w.2 = Some w.1) as Hslot by done.
  assert (debugging w.2 = debugging (constructor opts)) as Hdbg
    by (unfold debugging; subst w; cbn; by rewrite Ho).
  cbn [fst snd] in *. split_and!.
  - done.
  - exact Hp.
  - apply onResponseEnd_resume_token_set; [done..|]. by rewrite Hdbg.
  - apply onResponseEnd_resume_slot.
  - by apply onResponseEnd_resume_error.
  - apply onResponseEnd_resume_slot.
Qed.

(** X14.  The promise of the rendezvous that is outstanding at a
    [stopServer] stays rejected with the error of the stop, whatever events
    follow.  An exchange that ends right after the stop changes no promise;
    but its answer goes to whatever rendezvous is in the slot when it
    arrives: after a new [waitForTokenResponse], a late error rejects the
    new promise. *)
Theorem stopped_rendezvous_stays_rejected opts evs p evs' r e :
  let st := run (constructor opts) evs in
  resultPromise st = Some p →
  let st' := (stopServer st).2 in
  let w := waitForTokenResponse st' in
  promises (run st' evs') !! p = Some (Rejected (Error "Proxy Server stopped."))
  ∧ resultPromise st' = None
  ∧ rendezvous (onResponseEnd_resume r st') = rendezvous st'
  ∧ promises (onResponseEnd_resume (Throw e) w.2) !! w.1 = Some (Rejected e)
  ∧ promises (onResponseEnd_resume (Throw e) w.2) !! p
    = Some (Rejected (Error "Proxy Server stopped.")).
Proof.
  intros st Hslot st' w.
  assert (slot_pending st) as Hinv
    by apply (run_slot_pending openIdClient codeChallenge JSON_stringify),
             constructor_slot_pending.
  destruct (stopServer_rejects_rendezvous st p) as [Hp Hnone]; [auto..|].
  fold st' in Hp, Hnone. clearbody st'. split_and!.
  - by apply (run_settled openIdClient codeChallenge JSON_stringify).
  - done.
  - unfold rendezvous, onResponseEnd_resume.
    pose proof (retrieveTokens_resume_logs_only r st')
      as (_ & _ & _ & _ & Hr & Hps & _).
    destruct (_retrieveTokens_resume r st') as [[v|e'] st1]; cbn in *;
      simpl_session; by rewrite Hr, Hnone, Hps.
  - apply onResponseEnd_resume_error; [done|]. apply waitForTokenResponse_pending.
  - change (onResponseEnd_resume (Throw e) w.2)
      with (run w.2 [ExchangeDone (Throw e)]).
    apply (run_settled openIdClient codeChallenge JSON_stringify); [|done].
    subst w. cbn. rewrite lookup_app_l; [done|]. by eapply lookup_lt_Some.
Qed.

(** X15.  Token sets reach the log only at level [debug].  When debugging
    is off, the answer of the provider adds nothing to the log but the
    success line (with a logger, and only for a token set); an error adds
    nothing. *)
Theorem tokens_are_logged_only_when_debugging st tokenSet e :
  debugging st = false →
  log (onResponseEnd_resume (Return tokenSet) st)
  = (if logger (options st)
     then log st ++ ["Daikin-Cloud: Token detection SUCCESS"]
     else log st)%list
  ∧ log (onResponseEnd_resume (Throw e) st) = log st.
Proof.
  intros Hoff. split.
  - unfold onResponseEnd_resume, _retrieveTokens_resume.
    assert (log_debug ("Daikin-Cloud: received and validated tokens: "
                       +:+ ts_json tokenSet) st = st) as ->
      by (unfold log_debug; by rewrite Hoff).
    rewrite Hoff. cbn. simpl_session. unfold log_line. by case_match.
  - cbn. by simpl_session.
Qed.

End Coverage.

(** * Further explicit inputs *)

Lemma only_the_slot_promise_changes_witness :
  let st := (waitForTokenResponse demo_waiting).2 in
  promises (run demo_client demo_codeChallenge demo_stringify st
              [ExchangeDone (Throw (Error "late")); CallStop]) !! 0%nat
  = Some Pending.
Proof.
  intros st.
  assert (0 < length (promises st))%nat as Hq by (vm_compute; lia).
  assert (resultPromise st ≠ Some 0%nat) as Hslot by done.
  exact (only_the_slot_promise_changes demo_client demo_codeChallenge
           demo_stringify st _ 0%nat Hq Hslot).
Defined.

Lemma startServer_throws_until_proxy_closed_witness :
  let st := run demo_client demo_codeChallenge demo_stringify demo_running
              [CallWait; CallStop] in
  startServer demo_client demo_codeChallenge demo_network st
  = (Throw (Error "Proxy Server already started. Please stop before starting again."),
     st).
Proof.
  intros st.
  assert (is_Some (proxyServer demo_running)) as Hp by (by eexists).
  assert (Forall (λ ev, is_ProxyClosed ev = false) [CallWait; CallStop]) as Hevs
    by (by repeat constructor).
  exact (startServer_throws_until_proxy_closed demo_client demo_codeChallenge
           demo_stringify demo_network demo_running _ Hp Hevs).
Defined.

Lemma startServer_success_publishes_login_page_witness :
  let r := startServer demo_client demo_codeChallenge demo_network demo_session in
  let startLink :=
    "https://idp.example/authorize?scope=email,openid,profile&state=state-1&code_challenge=S256(verifier-1)&code_challenge_method=S256" in
  r.1 = Return (Fulfilled VTrue)
  ∧ proxyServer r.2 = Some Listening
  ∧ staticServer r.2 = Some Listening
  ∧ files r.2 = pages "data" startLink
  ∧ js_get (openIdStore r.2) "state-1" = Entry "verifier-1".
Proof.
  intros r startLink.
  destruct (startServer_success_publishes_login_page demo_client demo_codeChallenge
              demo_network demo_session eq_refl eq_refl eq_refl)
    as (Hr & Hp & Hs & Hf & _ & Hget & _).
  exact (conj Hr (conj Hp (conj Hs (conj Hf Hget)))).
Defined.

Lemma startServer_static_bind_failure_leaves_session_witness :
  let net := {| proxy_bind := None; static_bind := Some EADDRINUSE;
                drawn_codeVerifier := "v"; drawn_state := "s" |} in
  let r := startServer demo_client demo_codeChallenge net demo_session in
  r.1 = Return Pending
  ∧ proxyServer r.2 = Some Closing
  ∧ staticServer r.2 = Some Binding
  ∧ files r.2 = []
  ∧ (startServer demo_client demo_codeChallenge demo_network r.2).1
    = Throw (Error "Proxy Server already started. Please stop before starting again.").
Proof.
  intros net r.
  destruct (startServer_static_bind_failure_leaves_session demo_client
              demo_codeChallenge net demo_session EADDRINUSE demo_network
              eq_refl eq_refl eq_refl)
    as (Hr & Hp & Hs & _ & Hf & _ & Hagain).
  exact (conj Hr (conj Hp (conj Hs (conj Hf Hagain)))).
Defined.

Lemma stored_state_survives_witness :
  js_get (openIdStore
            (run demo_client demo_codeChallenge demo_stringify demo_running
               [ResponseEnd (Some "daikinunified://login?state=state-1&code=abc");
                CallStop; ProxyClosed; StaticClosed;
                CallStart; ProxyListening; StaticListening "verifier-2" "state-2"]))
    "state-1"
  = Entry "verifier-1".
Proof.
  assert (js_get (openIdStore demo_running) "state-1" = Entry "verifier-1") as Hget
    by (vm_compute; reflexivity).
  apply (stored_state_survives demo_client demo_codeChallenge demo_stringify
           demo_running _ "state-1" "verifier-1" Hget).
  repeat constructor.
Defined.

Lemma redirect_for_generated_state_starts_exchange_witness :
  let callbackUrl := "daikinunified://login?code=abc&state=state-9" in
  let st1 := (_generateInitialUrl demo_client demo_codeChallenge
                "verifier-9" "state-9" demo_waiting).2 in
  onResponseEnd demo_client demo_stringify (Some callbackUrl) st1
  = (Some ("daikinunified://login", callbackParams demo_client callbackUrl,
           {| checks_code_verifier := Some "verifier-9";
              checks_state := Some "state-9" |}),
     st1).
Proof.
  intros callbackUrl st1.
  exact (redirect_for_generated_state_starts_exchange demo_client demo_codeChallenge
           demo_stringify "verifier-9" "state-9" demo_waiting callbackUrl
           eq_refl eq_refl eq_refl).
Defined.

Lemma response_without_app_redirect_is_ignored_witness :
  onResponseEnd demo_client demo_stringify
    (Some "https://daikin.example/next?state=state-1&code=abc") demo_running
  = (None, demo_running).
Proof.
  apply (response_without_app_redirect_is_ignored demo_client demo_stringify).
  intros rest. discriminate.
Defined.

Lemma login_round_trip_witness :
  let callbackUrl := "daikinunified://login?code=abc&state=state-1" in
  let tokenSet := {| ts_json := "{access_token:a}"; ts_claims := None |} in
  let st1 := (startServer demo_client demo_codeChallenge demo_network
                (constructor (Some demo_options))).2 in
  let w := waitForTokenResponse st1 in
  let h := onResponseEnd demo_client demo_stringify (Some callbackUrl) w.2 in
  promises (onResponseEnd_resume (Return tokenSet) h.2) !! w.1
  = Some (Fulfilled (VTokenSet tokenSet))
  ∧ promises (onResponseEnd_resume (Throw (Error "invalid_grant")) h.2) !! w.1
    = Some (Rejected (Error "invalid_grant")).
Proof.
  intros callbackUrl tokenSet st1 w h.
  assert (debugging (constructor (Some demo_options)) = false
          ∨ is_Some (ts_claims tokenSet)) as Hdebug by (left; reflexivity).
  destruct (login_round_trip demo_client demo_codeChallenge demo_stringify
              (Some demo_options) demo_network callbackUrl tokenSet
              (Error "invalid_grant") eq_refl eq_refl eq_refl eq_refl eq_refl
              Hdebug)
    as (_ & _ & Hok & _ & Hko & _).
  exact (conj Hok Hko).
Defined.

Lemma stopped_rendezvous_stays_rejected_witness :
  let st := run demo_client demo_codeChallenge demo_stringify
              (constructor (Some demo_options))
              (start_events demo_network ++ [CallWait]) in
  let st' := (stopServer st).2 in
  let w := waitForTokenResponse st' in
  promises (run demo_client demo_codeChallenge demo_stringify st'
              [ExchangeDone (Throw (Error "late")); CallWait]) !! 0%nat
  = Some (Rejected (Error "Proxy Server stopped."))
  ∧ promises (onResponseEnd_resume (Throw (Error "late")) w.2) !! w.1
    = Some (Rejected (Error "late")).
Proof.
  intros st st' w.
  assert (resultPromise st = Some 0%nat) as Hslot by (vm_compute; reflexivity).
  destruct (stopped_rendezvous_stays_rejected demo_client demo_codeChallenge
              demo_stringify (Some demo_options) _ 0%nat
              [ExchangeDone (Throw (Error "late")); CallWait]
              (Throw (Error "late")) (Error "late") Hslot)
    as (Hold & _ & _ & Hnew & _).
  exact (conj Hold Hnew).
Defined.

Lemma tokens_are_logged_only_when_debugging_witness :
  let tokenSet := {| ts_json := "{access_token:a}"; ts_claims := None |} in
  log (onResponseEnd_resume (Return tokenSet) demo_running)
  = ["Daikin-Cloud: Token detection SUCCESS"].
Proof.
  intros tokenSet.
  exact (proj1 (tokens_are_logged_only_when_debugging demo_running tokenSet
                  (Error "unused") eq_refl)).
Defined.
